(** * Task board: the board context and the drag-and-drop resolver

    A shallow embedding of [src/context/BoardContext.tsx] (the operations of
    [BoardProvider]), of [handleDragEnd] of the [Board] component and of the
    small handlers of the [Column], [Card] and [BoardList] components that
    call into the context.

    The operations are [async] functions that talk to a remote store through
    the supabase client and write React state through setters.  They are
    embedded as finite programs over two kinds of events, gateway calls and
    state writes, so that the order of calls and writes is part of the model.
    A program is run against a world holding the local state, the remote
    tables and a schedule of refusals. *)

From Stdlib Require Import String Ascii List ZArith Bool Lia Permutation.
From Stdlib Require Import DecimalString Sorted.
Import ListNotations.

Local Open Scope string_scope.
Local Open Scope Z_scope.
Local Open Scope list_scope.

Set Implicit Arguments.

(** [a === b] on strings (ids are strings). *)
Infix "===" := String.eqb (at level 70, no associativity).

(** ** Data model ([src/types/index.ts])

    The fields [id], [title], [position], [created_at] and [updated_at] are
    shared by several interfaces and carry a prefix here ([b_], [col_],
    [card_], [tag_]); [board_id], [column_id], [description] and [tags] keep
    their names. *)

Record Board : Type := mkBoard {
  b_id : string;
  b_title : string;
  b_created_at : string;
  b_updated_at : string
}.

Record Column : Type := mkColumn {
  col_id : string;
  board_id : string;
  col_title : string;
  col_position : Z;
  col_created_at : string;
  col_updated_at : string
}.

Record Tag : Type := mkTag {
  tag_id : string;
  tag_name : string;
  tag_color : string;
  tag_created_at : string
}.

(** [tags?: Tag[]]: the field may be absent, and the array built by
    [addTagToCard] may hold [undefined] (the result of a failed [find]), so an
    entry is an [option Tag]. *)
Record Card : Type := mkCard {
  card_id : string;
  column_id : string;
  card_title : string;
  description : option string;
  position : Z;
  card_created_at : string;
  card_updated_at : string;
  tags : option (list (option Tag))
}.

(** [Partial<Card> & { id: string }]: every field but [id] may be missing. *)
Record CardPatch : Type := mkPatch {
  p_column_id : option string;
  p_title : option string;
  p_description : option (option string);
  p_position : option Z;
  p_created_at : option string;
  p_updated_at : option string;
  p_tags : option (option (list (option Tag)))
}.

Definition or_else {A} (o : option A) (d : A) : A :=
  match o with Some a => a | None => d end.

(** [{ ...c, ...patch }] *)
Definition spread (c : Card) (p : CardPatch) : Card :=
  mkCard (card_id c)
         (or_else (p_column_id p) (column_id c))
         (or_else (p_title p) (card_title c))
         (or_else (p_description p) (description c))
         (or_else (p_position p) (position c))
         (or_else (p_created_at p) (card_created_at c))
         (or_else (p_updated_at p) (card_updated_at c))
         (or_else (p_tags p) (tags c)).

(** The state held by [BoardProvider] ([useState] cells). *)
Record Store : Type := mkStore {
  boards : list Board;
  currentBoard : option Board;
  columns : list Column;
  cards : list Card;
  all_tags : list Tag;            (* [tags] *)
  isLoading : bool
}.

(** ** Events: gateway calls and state writes *)

Inductive Request : Type :=
| InsertBoard (title : string)
| SelectTopColumnPosition (boardId : string)
| InsertColumn (title boardId : string) (pos : Z)
| SelectTopCardPosition (columnId : string)
| InsertCard (title columnId : string) (pos : Z)
| UpdateCardRow (cardId : string) (patch : CardPatch)
| DeleteCardRow (cardId : string)
| DeleteColumnRow (columnId : string)
| DeleteBoardRow (boardId : string)
| InsertCardTag (cardId tagId : string)
| DeleteCardTag (cardId tagId : string).

(** What [data] holds when the call is answered. *)
Definition payload (r : Request) : Type :=
  match r with
  | InsertBoard _ => Board
  | SelectTopColumnPosition _ | SelectTopCardPosition _ => list Z
  | InsertColumn _ _ _ => Column
  | InsertCard _ _ _ => Card
  | _ => unit
  end.

(** [{ data, error }] as the client resolves it. *)
Inductive Response (A : Type) : Type :=
| Answered (data : A)
| Refused (error : string).
Arguments Refused {A} error.

(** The two selects read; every other call changes the remote tables. *)
Definition mutating (r : Request) : bool :=
  match r with
  | SelectTopColumnPosition _ | SelectTopCardPosition _ => false
  | _ => true
  end.

(** [useState] cells local to a component; only their writes are recorded. *)
Inductive LocalCell : Type :=
| ActiveCardId (a : option string)
| NewBoardTitle (v : string)
| IsDialogOpen (v : bool)
| NewColumnTitle (v : string)
| NewCardTitle (v : string)
| IsAddingCard (v : bool)
| IsTagPopoverOpen (v : bool).

Inductive Event : Type -> Type :=
| Call (r : Request) : Event (Response (payload r))
| SetBoards (f : list Board -> list Board) : Event unit
| SetCurrentBoard (b : option Board) : Event unit
| SetColumns (f : list Column -> list Column) : Event unit
| SetCards (f : list Card -> option (list Card)) : Event unit
| SetLocal (c : LocalCell) : Event unit
| ToastSuccess (msg : string) : Event unit
| ToastError (msg : string) : Event unit
| ConsoleError (msg : string) : Event unit
| Throw (msg : string) : Event Empty_set.

(** A finite program: a result, or an event and what follows its answer. *)
Inductive Proc (R : Type) : Type :=
| Ret (r : R)
| Vis (X : Type) (e : Event X) (k : X -> Proc R).
Arguments Ret {R} r.
Arguments Vis {R X} e k.

Fixpoint bind {A B} (p : Proc A) (f : A -> Proc B) : Proc B :=
  match p with
  | Ret a => f a
  | Vis e k => Vis e (fun x => bind (k x) f)
  end.

Definition trigger {X} (e : Event X) : Proc X := Vis e (fun x => Ret x).

Declare Scope proc_scope.
Delimit Scope proc_scope with proc.
Notation "x <- p ;; q" := (bind p (fun x => q))
  (at level 61, p at next level, right associativity) : proc_scope.
Notation "p ;; q" := (bind p (fun _ => q))
  (at level 61, right associativity) : proc_scope.
Local Open Scope proc_scope.

Definition throw {R} (msg : string) : Proc R :=
  Vis (Throw msg) (fun x : Empty_set => match x with end).

(** ** The operations of [BoardProvider]

    Each body is [try { const { data, error } = await call; if (error) throw
    error; writes; toast.success } catch { console.error; toast.error }]. *)

Definition failed {R} (log toast : string) (r : R) : Proc R :=
  trigger (ConsoleError log);; trigger (ToastError toast);; Ret r.

Definition createBoard (title : string) : Proc (option Board) :=
  r <- trigger (Call (InsertBoard title));;
  match r with
  | Answered data =>
      trigger (SetBoards (fun prev => data :: prev));;
      trigger (ToastSuccess "Board created");;
      Ret (Some data)
  | Refused _ => failed "Error creating board:" "Failed to create board" None
  end.

(** [existing && existing.length > 0 ? existing[0].position + 1 : 0]; the
    [error] of the select is not read, so a refused select gives [0]. *)
Definition next_position (existing : Response (list Z)) : Z :=
  match existing with
  | Answered (p :: _) => p + 1
  | _ => 0
  end.

Definition createColumn (title boardId : string) : Proc (option Column) :=
  existingColumns <- trigger (Call (SelectTopColumnPosition boardId));;
  let pos := next_position existingColumns in
  r <- trigger (Call (InsertColumn title boardId pos));;
  match (r : Response Column) with
  | Answered data =>
      trigger (SetColumns (fun prev => prev ++ [data]));;
      trigger (ToastSuccess "Column created");;
      Ret (Some data)
  | Refused _ => failed "Error creating column:" "Failed to create column" None
  end.

Definition with_tags (c : Card) (t : option (list (option Tag))) : Card :=
  mkCard (card_id c) (column_id c) (card_title c) (description c) (position c)
         (card_created_at c) (card_updated_at c) t.

Definition createCard (title columnId : string) : Proc (option Card) :=
  existingCards <- trigger (Call (SelectTopCardPosition columnId));;
  let pos := next_position existingCards in
  r <- trigger (Call (InsertCard title columnId pos));;
  match (r : Response Card) with
  | Answered data =>
      let newCard := with_tags data (Some []) in
      trigger (SetCards (fun prev => Some (prev ++ [newCard])));;
      trigger (ToastSuccess "Card created");;
      Ret (Some newCard)
  | Refused _ => failed "Error creating card:" "Failed to create card" None
  end.

Definition position_patch (columnId : string) (pos : Z) : CardPatch :=
  mkPatch (Some columnId) None None (Some pos) None None None.

(** [prev.map(card => card.id === cardId ? { ...card, column_id, position } : card)] *)
Definition placed (cardId columnId : string) (pos : Z) (prev : list Card) : list Card :=
  map (fun card =>
         if card_id card === cardId
         then spread card (position_patch columnId pos)
         else card) prev.

Definition updateCardPosition (cardId columnId : string) (pos : Z) : Proc unit :=
  r <- trigger (Call (UpdateCardRow cardId (position_patch columnId pos)));;
  match r with
  | Answered _ => trigger (SetCards (fun prev => Some (placed cardId columnId pos prev)))
  | Refused _ =>
      failed "Error updating card position:" "Failed to update card position" tt
  end.

Definition updateCard (id : string) (card : CardPatch) : Proc unit :=
  r <- trigger (Call (UpdateCardRow id card));;
  match r with
  | Answered _ =>
      trigger (SetCards (fun prev => Some
        (map (fun c => if card_id c === id then spread c card else c) prev)));;
      trigger (ToastSuccess "Card updated")
  | Refused _ => failed "Error updating card:" "Failed to update card" tt
  end.

Definition deleteCard (cardId : string) : Proc unit :=
  r <- trigger (Call (DeleteCardRow cardId));;
  match r with
  | Answered _ =>
      trigger (SetCards (fun prev => Some
        (filter (fun card => negb (card_id card === cardId)) prev)));;
      trigger (ToastSuccess "Card deleted")
  | Refused _ => failed "Error deleting card:" "Failed to delete card" tt
  end.

Definition deleteColumn (columnId : string) : Proc unit :=
  r <- trigger (Call (DeleteColumnRow columnId));;
  match r with
  | Answered _ =>
      trigger (SetColumns (fun prev =>
        filter (fun column => negb (col_id column === columnId)) prev));;
      trigger (SetCards (fun prev => Some
        (filter (fun card => negb (column_id card === columnId)) prev)));;
      trigger (ToastSuccess "Column deleted")
  | Refused _ => failed "Error deleting column:" "Failed to delete column" tt
  end.

(** [currentBoard?.id === boardId], on the [currentBoard] the closure saw. *)
Definition is_current (s : Store) (boardId : string) : bool :=
  match currentBoard s with
  | Some b => b_id b === boardId
  | None => false
  end.

Definition deleteBoard (s : Store) (boardId : string) : Proc unit :=
  r <- trigger (Call (DeleteBoardRow boardId));;
  match r with
  | Answered _ =>
      trigger (SetBoards (fun prev =>
        filter (fun board => negb (b_id board === boardId)) prev));;
      (if is_current s boardId
       then trigger (SetCurrentBoard None);;
            trigger (SetColumns (fun _ => []));;
            trigger (SetCards (fun _ => Some []))
       else Ret tt);;
      trigger (ToastSuccess "Board deleted")
  | Refused _ => failed "Error deleting board:" "Failed to delete board" tt
  end.

(** [[...(card.tags || []), tag]] with [tag] the result of [tags.find]:
    [undefined] when no tag has that id. *)
Definition tags_or_empty (c : Card) : list (option Tag) := or_else (tags c) [].

Definition tagged (cardId : string) (tag : option Tag) (prev : list Card) : list Card :=
  map (fun card =>
         if card_id card === cardId
         then with_tags card (Some (tags_or_empty card ++ [tag]))
         else card) prev.

Definition addTagToCard (s : Store) (cardId tagId : string) : Proc unit :=
  r <- trigger (Call (InsertCardTag cardId tagId));;
  match r with
  | Answered _ =>
      let tag := find (fun t => tag_id t === tagId) (all_tags s) in
      trigger (SetCards (fun prev => Some (tagged cardId tag prev)));;
      trigger (ToastSuccess "Tag added")
  | Refused _ => failed "Error adding tag to card:" "Failed to add tag" tt
  end.

(** [(card.tags || []).filter(tag => tag.id !== tagId)]: reading [.id] of an
    [undefined] entry is a TypeError, here [None]. *)
Fixpoint without_tag (tagId : string) (l : list (option Tag))
  : option (list (option Tag)) :=
  match l with
  | [] => Some []
  | None :: _ => None
  | Some t :: rest =>
      match without_tag tagId rest with
      | Some rest' => Some (if tag_id t === tagId then rest' else Some t :: rest')
      | None => None
      end
  end.

Fixpoint map_cards (f : Card -> option Card) (l : list Card) : option (list Card) :=
  match l with
  | [] => Some []
  | c :: rest =>
      match f c with
      | Some c' =>
          match map_cards f rest with
          | Some rest' => Some (c' :: rest')
          | None => None
          end
      | None => None
      end
  end.

Definition removeTagFromCard (cardId tagId : string) : Proc unit :=
  r <- trigger (Call (DeleteCardTag cardId tagId));;
  match r with
  | Answered _ =>
      trigger (SetCards (map_cards (fun card =>
        if card_id card === cardId
        then match without_tag tagId (tags_or_empty card) with
             | Some l => Some (with_tags card (Some l))
             | None => None
             end
        else Some card)));;
      trigger (ToastSuccess "Tag removed")
  | Refused _ => failed "Error removing tag from card:" "Failed to remove tag" tt
  end.

(** ** Array helpers used by the components *)

(** [[...l].sort((a, b) => a.position - b.position)]: ascending and stable. *)
Fixpoint insert_by_position (x : Card) (l : list Card) : list Card :=
  match l with
  | [] => [x]
  | y :: rest =>
      if position x <=? position y then x :: l
      else y :: insert_by_position x rest
  end.

Fixpoint sort_by_position (l : list Card) : list Card :=
  match l with
  | [] => []
  | x :: rest => insert_by_position x (sort_by_position rest)
  end.

(** [l.findIndex(p)]: the first index, or [-1]. *)
Fixpoint findIndex_from {A} (p : A -> bool) (i : Z) (l : list A) : Z :=
  match l with
  | [] => -1
  | x :: rest => if p x then i else findIndex_from p (i + 1) rest
  end.

Definition findIndex {A} (p : A -> bool) (l : list A) : Z := findIndex_from p 0 l.

Fixpoint remove_at {A} (n : nat) (l : list A) : list A :=
  match n, l with
  | _, [] => []
  | O, _ :: rest => rest
  | S n', x :: rest => x :: remove_at n' rest
  end.

Fixpoint insert_at {A} (n : nat) (x : A) (l : list A) : list A :=
  match n, l with
  | O, _ => x :: l
  | S _, [] => [x]
  | S n', y :: rest => y :: insert_at n' x rest
  end.

(** [arrayMove(array, from, to)] as '@dnd-kit/sortable' exports it: copy the
    array, splice the item out of [from] and splice it in at [to]; for a
    [from] outside the array the copy is returned.  The components do not
    get this function (see [arrayMove] below); it is what a same-column
    reorder asks for. *)
Definition sortable_arrayMove {A} (array : list A) (from to : Z) : list A :=
  match nth_error array (Z.to_nat from) with
  | Some item => insert_at (Z.to_nat to) item (remove_at (Z.to_nat from) array)
  | None => array
  end.

(** [import { arrayMove } from '@dnd-kit/core']: that package has no export
    of this name, so the binding the [Board] component holds is [undefined],
    and calling it is a TypeError. *)
Definition arrayMove : option (list Card -> Z -> Z -> list Card) := None.

(** [Math.max(...l)] for a non-empty [l] (the call site checks the length). *)
Definition math_max (l : list Z) : Z :=
  match l with
  | [] => 0
  | x :: rest => fold_left Z.max rest x
  end.

(** [s.trim()].  A string is held as the UTF-8 bytes of the JavaScript
    string, so the white space and line terminators that [trim] strips are
    byte sequences of one, two or three bytes:
    U+0009..U+000D and U+0020; U+00A0; U+1680, U+2000..U+200A, U+2028,
    U+2029, U+202F, U+205F, U+3000 and U+FEFF. *)
Definition is_space (c : ascii) : bool :=
  let n := nat_of_ascii c in
  ((9 <=? n) && (n <=? 13))%nat || (n =? 32)%nat.

Definition is_space2 (c1 c2 : ascii) : bool :=
  ((nat_of_ascii c1 =? 194) && (nat_of_ascii c2 =? 160))%nat.

Definition is_space3 (c1 c2 c3 : ascii) : bool :=
  let n1 := nat_of_ascii c1 in
  let n2 := nat_of_ascii c2 in
  let n3 := nat_of_ascii c3 in
  ((n1 =? 225) && (n2 =? 154) && (n3 =? 128)
   || (n1 =? 226) && (n2 =? 128)
      && (((128 <=? n3) && (n3 <=? 138)) || (n3 =? 168) || (n3 =? 169) || (n3 =? 175))
   || (n1 =? 226) && (n2 =? 129) && (n3 =? 159)
   || (n1 =? 227) && (n2 =? 128) && (n3 =? 128)
   || (n1 =? 239) && (n2 =? 187) && (n3 =? 191))%nat.

(** The string after its first character when that is white space. *)
Definition leading_space (s : string) : option string :=
  match s with
  | EmptyString => None
  | String c1 r1 =>
      if is_space c1 then Some r1
      else match r1 with
           | EmptyString => None
           | String c2 r2 =>
               if is_space2 c1 c2 then Some r2
               else match r2 with
                    | EmptyString => None
                    | String c3 r3 => if is_space3 c1 c2 c3 then Some r3 else None
                    end
           end
  end.

(** The string is one white space character. *)
Definition white_space (s : string) : bool :=
  match leading_space s with
  | Some EmptyString => true
  | _ => false
  end.

Fixpoint strip_leading (fuel : nat) (s : string) : string :=
  match fuel with
  | O => s
  | S fuel' =>
      match leading_space s with
      | Some rest => strip_leading fuel' rest
      | None => s
      end
  end.

Definition trimStart (s : string) : string := strip_leading (String.length s) s.

Fixpoint trimEnd (s : string) : string :=
  match s with
  | EmptyString => EmptyString
  | String c rest =>
      let kept := trimEnd rest in
      if white_space (String c kept) then EmptyString else String c kept
  end.

Definition trim (s : string) : string := trimEnd (trimStart s).

(** A string is truthy when it is not empty. *)
Definition truthy (s : string) : bool :=
  match s with EmptyString => false | _ => true end.

(** ** Handlers of the components *)

(** [BoardList.handleCreateBoard] *)
Definition handleCreateBoard (newBoardTitle : string) : Proc unit :=
  if truthy (trim newBoardTitle) then
    board <- createBoard (trim newBoardTitle);;
    match board with
    | Some _ => trigger (SetLocal (NewBoardTitle ""));;
                trigger (SetLocal (IsDialogOpen false))
    | None => Ret tt
    end
  else Ret tt.

(** [Board.handleCreateColumn] *)
Definition handleCreateColumn (s : Store) (newColumnTitle : string) : Proc unit :=
  match truthy (trim newColumnTitle), currentBoard s with
  | true, Some b =>
      createColumn (trim newColumnTitle) (b_id b);;
      trigger (SetLocal (NewColumnTitle ""))
  | _, _ => Ret tt
  end.

(** [Column.handleCreateCard], for the column with id [columnId] *)
Definition handleCreateCard (columnId newCardTitle : string) : Proc unit :=
  if truthy (trim newCardTitle) then
    createCard (trim newCardTitle) columnId;;
    trigger (SetLocal (NewCardTitle ""));;
    trigger (SetLocal (IsAddingCard false))
  else Ret tt.

(** [tags.some(tag => tag.id === tagId)]: stops at the first match; reading
    [.id] of an [undefined] entry met before one is a TypeError ([None]). *)
Fixpoint some_tag_has_id (tagId : string) (l : list (option Tag)) : option bool :=
  match l with
  | [] => Some false
  | None :: _ => None
  | Some t :: rest => if tag_id t === tagId then Some true else some_tag_has_id tagId rest
  end.

(** [Card.handleTagClick], for the card [card] the component was given *)
Definition handleTagClick (s : Store) (card : Card) (tagId : string) : Proc unit :=
  match
    match tags card with
    | Some l => some_tag_has_id tagId l
    | None => Some false
    end
  with
  | None => throw "TypeError"
  | Some hasTag =>
      (if hasTag then removeTagFromCard (card_id card) tagId
       else addTagToCard s (card_id card) tagId);;
      trigger (SetLocal (IsTagPopoverOpen false))
  end.

(** The [for] loop of the same-column branch: the first index of [newOrder]
    that holds the dragged card gets the one [updateCardPosition], then
    [break]. *)
Fixpoint update_moved (activeCardId columnId : string) (i : Z) (newOrder : list Card)
  : Proc unit :=
  match newOrder with
  | [] => Ret tt
  | c :: rest =>
      if card_id c === activeCardId
      then updateCardPosition activeCardId columnId i
      else update_moved activeCardId columnId (i + 1) rest
  end.

(** [Board.handleDragEnd]; [over] is [None] for a drop on nothing. *)
Definition handleDragEnd (s : Store) (active : string) (over : option string)
  : Proc unit :=
  match over with
  | None => trigger (SetLocal (ActiveCardId None))
  | Some overId =>
      let activeCardId := active in
      match find (fun card => card_id card === activeCardId) (cards s) with
      | None => trigger (SetLocal (ActiveCardId None))
      | Some activeCard =>
          match find (fun column => col_id column === overId) (columns s) with
          | Some overColumn =>
              let columnCards :=
                filter (fun card => column_id card === col_id overColumn) (cards s) in
              let highestPosition :=
                if (0 <? Z.of_nat (length columnCards))
                then math_max (map position columnCards) + 1
                else 0 in
              updateCardPosition activeCardId (col_id overColumn) highestPosition
          | None =>
              match find (fun card => card_id card === overId) (cards s) with
              | Some overCard =>
                  if column_id activeCard === column_id overCard then
                    let columnCards :=
                      sort_by_position
                        (filter (fun card => column_id card === column_id activeCard)
                                (cards s)) in
                    let activeIndex :=
                      findIndex (fun card => card_id card === activeCardId) columnCards in
                    let overIndex :=
                      findIndex (fun card => card_id card === overId) columnCards in
                    if negb (activeIndex =? -1) && negb (overIndex =? -1) then
                      match arrayMove with
                      | Some arrayMove =>
                          let newOrder :=
                            arrayMove columnCards activeIndex overIndex in
                          update_moved activeCardId (column_id activeCard) 0 newOrder
                      | None => throw "TypeError"
                      end
                    else Ret tt
                  else
                    updateCardPosition activeCardId (column_id overCard)
                                       (position overCard)
              | None => Ret tt
              end
          end;;
          trigger (SetLocal (ActiveCardId None))
      end
  end.

(** ** The remote store and the runs of a program *)

(** Modelled from the spec: the remote store behind the [supabase] client
    ([src/lib/supabase] and the database schema are not among the sources).
    It is the Remote Gateway of the spec: tables of rows keyed by id, a
    create that returns the stored row with the id and the timestamps it
    generated, an update and a delete by id, deletes that cascade to the
    children, and a list ordered by position.  A call may also be refused
    for any reason of the backend (network, constraint, policy); that is the
    schedule of refusals of the world below, not a rule of this definition. *)
Record Remote : Type := mkRemote {
  r_boards : list Board;
  r_columns : list Column;
  r_cards : list Card;
  r_card_tags : list (string * string);
  minted : nat;                    (* ids generated so far *)
  now : string                     (* the timestamp given to new rows *)
}.

Definition fresh_id (db : Remote) : string :=
  "id-" ++ NilZero.string_of_uint (Nat.to_uint (minted db)).

(** [.order('position', { ascending: false })] on the selected positions. *)
Fixpoint insert_desc (x : Z) (l : list Z) : list Z :=
  match l with
  | [] => [x]
  | y :: rest => if y <=? x then x :: l else y :: insert_desc x rest
  end.

Fixpoint order_desc (l : list Z) : list Z :=
  match l with
  | [] => []
  | x :: rest => insert_desc x (order_desc rest)
  end.

Definition column_positions (db : Remote) (boardId : string) : list Z :=
  map col_position (filter (fun c => board_id c === boardId) (r_columns db)).

Definition card_positions (db : Remote) (columnId : string) : list Z :=
  map position (filter (fun c => column_id c === columnId) (r_cards db)).

Definition row_patch (p : CardPatch) : CardPatch :=
  mkPatch (p_column_id p) (p_title p) (p_description p) (p_position p)
          (p_created_at p) (p_updated_at p) None.

(** Modelled from the spec: the answer of the remote store to a call it
    accepts (create, update and delete by id, list ordered by position). *)
Definition serve (r : Request) (db : Remote) : payload r * Remote :=
  match r return payload r * Remote with
  | InsertBoard title =>
      let row := mkBoard (fresh_id db) title (now db) (now db) in
      (row, mkRemote (r_boards db ++ [row]) (r_columns db) (r_cards db)
                     (r_card_tags db) (S (minted db)) (now db))
  | SelectTopColumnPosition boardId =>
      (firstn 1 (order_desc (column_positions db boardId)), db)
  | InsertColumn title boardId pos =>
      let row := mkColumn (fresh_id db) boardId title pos (now db) (now db) in
      (row, mkRemote (r_boards db) (r_columns db ++ [row]) (r_cards db)
                     (r_card_tags db) (S (minted db)) (now db))
  | SelectTopCardPosition columnId =>
      (firstn 1 (order_desc (card_positions db columnId)), db)
  | InsertCard title columnId pos =>
      let row := mkCard (fresh_id db) columnId title None pos (now db) (now db) None in
      (row, mkRemote (r_boards db) (r_columns db) (r_cards db ++ [row])
                     (r_card_tags db) (S (minted db)) (now db))
  | UpdateCardRow cardId patch =>
      (tt, mkRemote (r_boards db) (r_columns db)
                    (map (fun c => if card_id c === cardId
                                   then spread c (row_patch patch) else c)
                         (r_cards db))
                    (r_card_tags db) (minted db) (now db))
  | DeleteCardRow cardId =>
      (tt, mkRemote (r_boards db) (r_columns db)
                    (filter (fun c => negb (card_id c === cardId)) (r_cards db))
                    (filter (fun ct => negb (fst ct === cardId)) (r_card_tags db))
                    (minted db) (now db))
  | DeleteColumnRow columnId =>
      (tt, mkRemote (r_boards db)
                    (filter (fun c => negb (col_id c === columnId)) (r_columns db))
                    (filter (fun c => negb (column_id c === columnId)) (r_cards db))
                    (r_card_tags db) (minted db) (now db))
  | DeleteBoardRow boardId =>
      let gone := map col_id
                    (filter (fun c => board_id c === boardId) (r_columns db)) in
      (tt, mkRemote (filter (fun b => negb (b_id b === boardId)) (r_boards db))
                    (filter (fun c => negb (board_id c === boardId)) (r_columns db))
                    (filter (fun c => negb (existsb (String.eqb (column_id c)) gone))
                            (r_cards db))
                    (r_card_tags db) (minted db) (now db))
  | InsertCardTag cardId tagId =>
      (tt, mkRemote (r_boards db) (r_columns db) (r_cards db)
                    (r_card_tags db ++ [(cardId, tagId)]) (minted db) (now db))
  | DeleteCardTag cardId tagId =>
      (tt, mkRemote (r_boards db) (r_columns db) (r_cards db)
                    (filter (fun ct => negb ((fst ct === cardId) && (snd ct === tagId)))
                            (r_card_tags db))
                    (minted db) (now db))
  end.

(** What a run leaves behind, in order. *)
Inductive Entry : Type :=
| Issued (r : Request) (answered : bool) (local : Store)
| Wrote (before after : Store)
| WroteLocal (c : LocalCell)
| Toasted (success : bool) (msg : string)
| Logged (msg : string)
| Thrown (msg : string).

(** The local state, the remote store, the calls that will be refused (one
    flag per call to come, [true] for a refusal; none left means answered)
    and the journal of the run so far. *)
Record World : Type := mkWorld {
  store : Store;
  remote : Remote;
  refusals : list bool;
  journal : list Entry
}.

Definition record (w : World) (e : Entry) : World :=
  mkWorld (store w) (remote w) (refusals w) (journal w ++ [e]).

Definition write (w : World) (s' : Store) : World :=
  mkWorld s' (remote w) (refusals w) (journal w ++ [Wrote (store w) s']).

Definition set_boards (s : Store) (v : list Board) : Store :=
  mkStore v (currentBoard s) (columns s) (cards s) (all_tags s) (isLoading s).
Definition set_currentBoard (s : Store) (v : option Board) : Store :=
  mkStore (boards s) v (columns s) (cards s) (all_tags s) (isLoading s).
Definition set_columns (s : Store) (v : list Column) : Store :=
  mkStore (boards s) (currentBoard s) v (cards s) (all_tags s) (isLoading s).
Definition set_cards (s : Store) (v : list Card) : Store :=
  mkStore (boards s) (currentBoard s) (columns s) v (all_tags s) (isLoading s).

Definition answer (r : Request) (w : World) : Response (payload r) * World :=
  match refusals w with
  | true :: later =>
      (Refused "refused",
       mkWorld (store w) (remote w) later
               (journal w ++ [Issued r false (store w)]))
  | _ =>
      let (data, db) := serve r (remote w) in
      (Answered data,
       mkWorld (store w) db (tl (refusals w))
               (journal w ++ [Issued r true (store w)]))
  end.

(** One event.  [None] is an exception leaving the program (a [throw]).  A
    setter called with an updater does not run it in the caller's [try]:
    React runs it when it renders, so an updater that throws does not stop
    the operation; the exception is noted and the cards are given no new
    value. *)
Definition step {X} (e : Event X) (w : World) : option X * World :=
  match e in Event X return option X * World with
  | Call r => let (resp, w') := answer r w in (Some resp, w')
  | SetBoards f => (Some tt, write w (set_boards (store w) (f (boards (store w)))))
  | SetCurrentBoard b => (Some tt, write w (set_currentBoard (store w) b))
  | SetColumns f => (Some tt, write w (set_columns (store w) (f (columns (store w)))))
  | SetCards f =>
      match f (cards (store w)) with
      | Some v => (Some tt, write w (set_cards (store w) v))
      | None => (Some tt, record w (Thrown "TypeError"))
      end
  | SetLocal c => (Some tt, record w (WroteLocal c))
  | ToastSuccess msg => (Some tt, record w (Toasted true msg))
  | ToastError msg => (Some tt, record w (Toasted false msg))
  | ConsoleError msg => (Some tt, record w (Logged msg))
  | Throw msg => (None, record w (Thrown msg))
  end.

Fixpoint run {R} (p : Proc R) (w : World) : option R * World :=
  match p with
  | Ret r => (Some r, w)
  | Vis e k =>
      match step e w with
      | (Some x, w') => run (k x) w'
      | (None, w') => (None, w')
      end
  end.

(** A world at rest: a local state, a remote store, refusals to come. *)
Definition world (s : Store) (db : Remote) (refuse : list bool) : World :=
  mkWorld s db refuse [].

Definition final_store {R} (p : Proc R) (w : World) : Store := store (snd (run p w)).
Definition final_journal {R} (p : Proc R) (w : World) : list Entry :=
  journal (snd (run p w)).

(** ** The mutating operations, as one type *)

Inductive Operation : Type :=
| OpCreateBoard (title : string)
| OpCreateColumn (title boardId : string)
| OpCreateCard (title columnId : string)
| OpUpdateCard (id : string) (card : CardPatch)
| OpUpdateCardPosition (cardId columnId : string) (pos : Z)
| OpDeleteCard (cardId : string)
| OpDeleteColumn (columnId : string)
| OpDeleteBoard (boardId : string)
| OpAddTagToCard (cardId tagId : string)
| OpRemoveTagFromCard (cardId tagId : string).

(** The operation as the component calls it: [s] is the state the provider
    rendered with, which the closures of [deleteBoard] and [addTagToCard]
    read. *)
Definition perform (s : Store) (o : Operation) : Proc unit :=
  match o with
  | OpCreateBoard title => createBoard title;; Ret tt
  | OpCreateColumn title boardId => createColumn title boardId;; Ret tt
  | OpCreateCard title columnId => createCard title columnId;; Ret tt
  | OpUpdateCard id card => updateCard id card
  | OpUpdateCardPosition cardId columnId pos => updateCardPosition cardId columnId pos
  | OpDeleteCard cardId => deleteCard cardId
  | OpDeleteColumn columnId => deleteColumn columnId
  | OpDeleteBoard boardId => deleteBoard s boardId
  | OpAddTagToCard cardId tagId => addTagToCard s cardId tagId
  | OpRemoveTagFromCard cardId tagId => removeTagFromCard cardId tagId
  end.

Definition is_call (e : Entry) : bool :=
  match e with Issued _ _ _ => true | _ => false end.

(** A journal in which every write of the state comes after a mutating call
    that was answered, and no call comes after a write. *)
Fixpoint writes_after_answer (answered : bool) (j : list Entry) : bool :=
  match j with
  | [] => true
  | Issued r a _ :: rest => writes_after_answer (answered || (a && mutating r)) rest
  | Wrote _ _ :: rest =>
      answered && forallb (fun e => negb (is_call e)) rest
      && writes_after_answer answered rest
  | _ :: rest => writes_after_answer answered rest
  end.

(** The first call to come is answered. *)
Definition answers (refuse : list bool) : Prop := hd false refuse = false.

(** The reading of the claim: in the journal of the operation, a write of the
    local state comes before the mutating gateway call is issued. *)
Definition applies_before_call (s : Store) (db : Remote) (refuse : list bool)
    (o : Operation) : Prop :=
  forall pre r a sn post,
    final_journal (perform s o) (world s db refuse) = pre ++ Issued r a sn :: post ->
    mutating r = true ->
    exists before after, In (Wrote before after) pre.

(** The column a drop on [overId] designates in [handleDragEnd]: the column
    with that id, else the column of the card with that id. *)
Definition destination (s : Store) (overId : string) : option string :=
  match find (fun column => col_id column === overId) (columns s) with
  | Some overColumn => Some (col_id overColumn)
  | None =>
      match find (fun card => card_id card === overId) (cards s) with
      | Some overCard => Some (column_id overCard)
      | None => None
      end
  end.

(** The tag ids of a card, entry by entry; an [undefined] entry has none. *)
Definition card_tag_ids (c : Card) : list (option string) :=
  map (option_map tag_id) (tags_or_empty c).

(** No card holds two entries with the same tag id. *)
Definition tags_unique (s : Store) : Prop :=
  forall c, In c (cards s) -> NoDup (card_tag_ids c).

(** The reading of the validation claim: the operation of the handler or of
    the context leaves no gateway call in the journal and the state as it
    was. *)
Definition rejected_locally {R} (p : Proc R) (w : World) : Prop :=
  (forall e, In e (final_journal p w) -> is_call e = false)
  /\ final_store p w = store w.

(** The positions held by the cards of a column, in the order of [cards]. *)
Definition positions_in (s : Store) (columnId : string) : list Z :=
  map position (filter (fun card => column_id card === columnId) (cards s)).

(** The positions held by the columns of a board, in the order of [columns]. *)
Definition column_positions_in (s : Store) (boardId : string) : list Z :=
  map col_position (filter (fun column => board_id column === boardId) (columns s)).

(** No two cards of a column of the state share a position. *)
Definition positions_unique (s : Store) : Prop :=
  forall col, In col (columns s) -> NoDup (positions_in s (col_id col)).

(** What the [Column] component shows: [cards.filter(...)] from [Board],
    then [sortedCards]. *)
Definition displayed (s : Store) (columnId : string) : list Card :=
  sort_by_position (filter (fun card => column_id card === columnId) (cards s)).

(** The order a drop of [active] on [overId] in the same column asks for:
    the displayed cards with the dragged one moved to the place of the
    other. *)
Definition requested_order (s : Store) (columnId active overId : string) : list Card :=
  let columnCards := displayed s columnId in
  sortable_arrayMove columnCards
            (findIndex (fun card => card_id card === active) columnCards)
            (findIndex (fun card => card_id card === overId) columnCards).

(** Every call to come is answered. *)
Definition all_answered (refuse : list bool) : Prop := Forall (eq false) refuse.

(** What the caller of a create gets: the entity, or [null]. *)
Definition created {R} (p : Proc (option R)) (w : World) : option R * World :=
  match run p w with
  | (Some r, w') => (r, w')
  | (None, w') => (None, w')
  end.

(** Creates awaited one after the other, as the handlers issue them. *)
Fixpoint createCards (titles : list string) (columnId : string) (w : World)
  : list (option Card) * World :=
  match titles with
  | [] => ([], w)
  | title :: later =>
      let (card, w') := created (createCard title columnId) w in
      let (more, w'') := createCards later columnId w' in
      (card :: more, w'')
  end.

Fixpoint createColumns (titles : list string) (boardId : string) (w : World)
  : list (option Column) * World :=
  match titles with
  | [] => ([], w)
  | title :: later =>
      let (column, w') := created (createColumn title boardId) w in
      let (more, w'') := createColumns later boardId w' in
      (column :: more, w'')
  end.

(** The spec's rule for an append: one plus the maximum of the positions of
    the siblings, or 0 when there is none. *)
Definition is_append_position (siblings : list Z) (p : Z) : Prop :=
  match siblings with
  | [] => p = 0
  | _ => In (p - 1) siblings /\ forall x, In x siblings -> x <= p - 1
  end.

(** The first [n] positions of a scope: 0, 1, ..., n - 1. *)
Definition first_positions (n : nat) : list Z := map Z.of_nat (seq 0 n).

(** ** Sample data: board "Sprint 1" with columns "To Do" and "Done" *)

Definition stamp : string := "2025-01-01T00:00:00Z".

Definition sprint1 : Board := mkBoard "b1" "Sprint 1" stamp stamp.
Definition todo : Column := mkColumn "todo" "b1" "To Do" 0 stamp stamp.
Definition done : Column := mkColumn "done" "b1" "Done" 1 stamp stamp.
Definition urgent : Tag := mkTag "t1" "urgent" "#ff0000" stamp.

Definition card_at (id col : string) (pos : Z) (t : list (option Tag)) : Card :=
  mkCard id col id None pos stamp stamp (Some t).

Definition row_of (c : Card) : Card := with_tags c None.

Definition store_of (cs : list Card) : Store :=
  mkStore [sprint1] (Some sprint1) [todo; done] cs [urgent] false.

Definition remote_of (cs : list Card) : Remote :=
  mkRemote [sprint1] [todo; done] (map row_of cs) [] 0 stamp.

Definition empty_store : Store := mkStore [] None [] [] [] false.
Definition empty_remote : Remote := mkRemote [] [] [] [] 0 stamp.

(** ** Further vocabulary for the operations *)

(** The operations on cards and on their tags. *)
Definition card_operation (o : Operation) : bool :=
  match o with
  | OpCreateCard _ _ | OpUpdateCard _ _ | OpUpdateCardPosition _ _ _
  | OpDeleteCard _ | OpAddTagToCard _ _ | OpRemoveTagFromCard _ _ => true
  | _ => false
  end.

(** The toasts of a journal, in order: [true] for [toast.success]. *)
Definition toasts (j : list Entry) : list (bool * string) :=
  flat_map (fun e => match e with Toasted ok msg => [(ok, msg)] | _ => [] end) j.

(** The [console.error] lines of a journal. *)
Definition logged (j : list Entry) : list string :=
  flat_map (fun e => match e with Logged msg => [msg] | _ => [] end) j.

(** The exceptions that left the program. *)
Definition thrown (j : list Entry) : list string :=
  flat_map (fun e => match e with Thrown msg => [msg] | _ => [] end) j.

(** The outcomes of the mutating calls of a journal, in order. *)
Definition outcomes (j : list Entry) : list bool :=
  flat_map (fun e => match e with
                     | Issued r a _ => if mutating r then [a] else []
                     | _ => []
                     end) j.

(** The gateway calls of a journal, in order. *)
Definition calls (j : list Entry) : list Request :=
  flat_map (fun e => match e with Issued r _ _ => [r] | _ => [] end) j.

(** Every card of the state belongs to a column of the state. *)
Definition cards_have_columns (s : Store) : Prop :=
  forall c, In c (cards s) -> exists col, In col (columns s) /\ col_id col = column_id c.

(** The three deletes. *)
Definition delete_operation (o : Operation) : bool :=
  match o with
  | OpDeleteCard _ | OpDeleteColumn _ | OpDeleteBoard _ => true
  | _ => false
  end.

(** The card an operation is addressed to, for the operations that name one. *)
Definition addressed_card (o : Operation) : option string :=
  match o with
  | OpUpdateCard id _ => Some id
  | OpUpdateCardPosition cardId _ _ => Some cardId
  | OpDeleteCard cardId => Some cardId
  | OpAddTagToCard cardId _ => Some cardId
  | OpRemoveTagFromCard cardId _ => Some cardId
  | _ => None
  end.

(** An entry of a tag list that is a tag with another id than [tagId]; what
    the filter of [removeTagFromCard] keeps. *)
Definition other_tag (tagId : string) (e : option Tag) : bool :=
  match e with
  | Some t => negb (tag_id t === tagId)
  | None => true
  end.

(** No [undefined] among the entries. *)
Definition all_defined (l : list (option Tag)) : Prop := ~ In None l.

(** The cards after [removeTagFromCard] when its updater does not throw. *)
Definition untagged (cardId tagId : string) (prev : list Card) : list Card :=
  map (fun card =>
         if card_id card === cardId
         then with_tags card (Some (filter (other_tag tagId) (tags_or_empty card)))
         else card) prev.

(** A card with its tag list made explicit: [card.tags || []]. *)
Definition with_explicit_tags (cardId : string) (prev : list Card) : list Card :=
  map (fun card =>
         if card_id card === cardId
         then with_tags card (Some (tags_or_empty card))
         else card) prev.

(** The string ends with a white space character. *)
Definition ends_with_space (s : string) : Prop :=
  exists before last, s = (before ++ last)%string /\ white_space last = true.

(** A string that is not empty and has no white space at either end. *)
Definition is_trimmed_title (s : string) : Prop :=
  s <> EmptyString /\ leading_space s = None /\ ~ ends_with_space s.

(** ** Loading: [fetchBoards], [fetchTags] and [fetchBoardData]

    The three loaders only read the remote store; they are embedded over
    their own events, the queries and the plain [setState(value)] writes they
    make.  The answers come from an oracle, so what is proved of a loader
    holds for every backend. *)

Module Loading.

(** A row of the cards query: the card and [tags:card_tags(tag_id)]. *)
Record CardRow : Type := mkRow {
  row_card : Card;
  row_tags : option (list string)
}.

Inductive Query : Type :=
| SelectBoards                              (* boards, newest first *)
| SelectAllTags                             (* tags, by name *)
| SelectBoard (boardId : string)            (* boards, [.eq('id', ..).single()] *)
| SelectColumns (boardId : string)          (* columns of a board, by position *)
| SelectCards (columnIds : list string)     (* cards of these columns, by position *)
| SelectTagsIn (tagIds : list string).      (* tags with these ids *)

Definition reply (q : Query) : Type :=
  match q with
  | SelectBoards => list Board
  | SelectAllTags => list Tag
  | SelectBoard _ => Board
  | SelectColumns _ => list Column
  | SelectCards _ => list CardRow
  | SelectTagsIn _ => list Tag
  end.

Inductive LoadEvent : Type -> Type :=
| Ask (q : Query) : LoadEvent (Response (reply q))
| PutIsLoading (v : bool) : LoadEvent unit
| PutBoards (v : list Board) : LoadEvent unit
| PutTags (v : list Tag) : LoadEvent unit
| PutCurrentBoard (v : option Board) : LoadEvent unit
| PutColumns (v : list Column) : LoadEvent unit
| PutCards (v : list Card) : LoadEvent unit
| LoadToastError (msg : string) : LoadEvent unit
| LoadConsoleError (msg : string) : LoadEvent unit.

Inductive Load (R : Type) : Type :=
| Done (r : R)
| Then (X : Type) (e : LoadEvent X) (k : X -> Load R).
Arguments Done {R} r.
Arguments Then {R X} e k.

Fixpoint andThen {A B} (p : Load A) (f : A -> Load B) : Load B :=
  match p with
  | Done a => f a
  | Then e k => Then e (fun x => andThen (k x) f)
  end.

Definition emit {X} (e : LoadEvent X) : Load X := Then e (fun x => Done x).

Declare Scope load_scope.
Notation "x <- p ;; q" := (andThen p (fun x => q))
  (at level 61, p at next level, right associativity) : load_scope.
Notation "p ;; q" := (andThen p (fun _ => q))
  (at level 61, right associativity) : load_scope.
Local Open Scope load_scope.

Definition load_failed (log toast : string) : Load unit :=
  emit (LoadConsoleError log);; emit (LoadToastError toast).



(** One card of [processedCards]: its tags are fetched when it has tag ids;
    the error of that query is not read, so a refusal gives no tags. *)
Definition process_card (row : CardRow) : Load Card :=
  let tagIds := or_else (row_tags row) [] in
  if (0 <? Z.of_nat (length tagIds)) then
    r <- emit (Ask (SelectTagsIn tagIds));;
    match (r : Response (list Tag)) with
    | Answered tagData => Done (with_tags (row_card row) (Some (map Some tagData)))
    | Refused _ => Done (with_tags (row_card row) (Some []))
    end
  else Done (with_tags (row_card row) (Some [])).

(** [Promise.all(cardsData.map(async card => ...))]: the queries are issued
    in the order of the rows and the cards collected in that order. *)
Fixpoint process_cards (rows : list CardRow) : Load (list Card) :=
  match rows with
  | [] => Done []
  | row :: later =>
      card <- process_card row;;
      cards <- process_cards later;;
      Done (card :: cards)
  end.

Definition fetchBoardData (boardId : string) : Load unit :=
  emit (PutIsLoading true);;
  r <- emit (Ask (SelectBoard boardId));;
  match (r : Response Board) with
  | Refused _ => load_failed "Error fetching board data:" "Failed to load board data"
  | Answered boardData =>
      emit (PutCurrentBoard (Some boardData));;
      rc <- emit (Ask (SelectColumns boardId));;
      match (rc : Response (list Column)) with
      | Refused _ =>
          load_failed "Error fetching board data:" "Failed to load board data"
      | Answered columnsData =>
          emit (PutColumns columnsData);;
          rd <- emit (Ask (SelectCards (map col_id columnsData)));;
          match (rd : Response (list CardRow)) with
          | Refused _ =>
              load_failed "Error fetching board data:" "Failed to load board data"
          | Answered cardsData =>
              processedCards <- process_cards cardsData;;
              emit (PutCards processedCards)
          end
      end
  end;;
  emit (PutIsLoading false).

(** [BoardList.handleSelectBoard] *)
Definition handleSelectBoard (boardId : string) : Load unit := fetchBoardData boardId.

(** The answers of the backend: by the rank of the query in the run and by
    the query. *)
Definition Oracle : Type := nat -> forall q : Query, Response (reply q).

(** What a loader leaves behind, in order. *)
Inductive Note : Type :=
| Asked (q : Query) (answered : bool)
| Loading (v : bool)
| ToastedError (msg : string)
| LoggedError (msg : string).

Definition answered_by {A} (r : Response A) : bool :=
  match r with Answered _ => true | Refused _ => false end.

Definition set_isLoading (s : Store) (v : bool) : Store :=
  mkStore (boards s) (currentBoard s) (columns s) (cards s) (all_tags s) v.
Definition set_tags (s : Store) (v : list Tag) : Store :=
  mkStore (boards s) (currentBoard s) (columns s) (cards s) v (isLoading s).

(** The state, the number of queries asked so far and the notes. *)
Definition Progress : Type := (Store * nat * list Note)%type.

Definition react {X} (oracle : Oracle) (e : LoadEvent X) (p : Progress)
  : X * Progress :=
  let '(s, n, notes) := p in
  match e in LoadEvent X return X * Progress with
  | Ask q => (oracle n q, (s, S n, notes ++ [Asked q (answered_by (oracle n q))]))
  | PutIsLoading v => (tt, (set_isLoading s v, n, notes ++ [Loading v]))
  | PutBoards v => (tt, (set_boards s v, n, notes))
  | PutTags v => (tt, (set_tags s v, n, notes))
  | PutCurrentBoard v => (tt, (set_currentBoard s v, n, notes))
  | PutColumns v => (tt, (set_columns s v, n, notes))
  | PutCards v => (tt, (set_cards s v, n, notes))
  | LoadToastError msg => (tt, (s, n, notes ++ [ToastedError msg]))
  | LoadConsoleError msg => (tt, (s, n, notes ++ [LoggedError msg]))
  end.

Fixpoint load {R} (oracle : Oracle) (p : Load R) (g : Progress) : R * Progress :=
  match p with
  | Done r => (r, g)
  | Then e k => let (x, g') := react oracle e g in load oracle (k x) g'
  end.

(** The state and the notes after a loader that starts in [s]. *)
Definition loaded {R} (oracle : Oracle) (p : Load R) (s : Store) : Store :=
  fst (fst (snd (load oracle p (s, O, [])))).
Definition notes_of {R} (oracle : Oracle) (p : Load R) (s : Store) : list Note :=
  snd (snd (load oracle p (s, O, []))).

Definition queries (notes : list Note) : list Query :=
  flat_map (fun n => match n with Asked q _ => [q] | _ => [] end) notes.
Definition error_toasts (notes : list Note) : list string :=
  flat_map (fun n => match n with ToastedError m => [m] | _ => [] end) notes.
Definition loading_flags (notes : list Note) : list bool :=
  flat_map (fun n => match n with Loading v => [v] | _ => [] end) notes.

(** The tag ids a row asks for, when it asks. *)
Definition tag_query (row : CardRow) : list Query :=
  match or_else (row_tags row) [] with
  | [] => []
  | ids => [SelectTagsIn ids]
  end.

(** An oracle for the sample board: card A, tagged urgent, in "To Do". *)
Definition sample_oracle : Oracle :=
  fun _ q =>
    match q return Response (reply q) with
    | SelectBoards => Answered [sprint1]
    | SelectAllTags => Answered [urgent]
    | SelectBoard _ => Answered sprint1
    | SelectColumns _ => Answered [todo; done]
    | SelectCards _ => Answered [mkRow (card_at "A" "todo" 0 []) (Some ["t1"])]
    | SelectTagsIn _ => Answered [urgent]
    end.

(** The same backend with the columns query refused. *)
Definition columns_refused : Oracle :=
  fun n q =>
    match q return Response (reply q) with
    | SelectColumns _ => Refused "refused"
    | q' => sample_oracle n q'
    end.

End Loading.

(** The card carries the tag: [card.tags?.some(tag => tag.id === tagId)] on a
    tag list without [undefined]. *)
Definition carries (card : Card) (tagId : string) : bool :=
  existsb (fun e => match e with
                    | Some t => tag_id t === tagId
                    | None => false
                    end) (tags_or_empty card).


(** A title of white space only: a no-break space (U+00A0), a space and a
    byte order mark (U+FEFF). *)
Definition blank_title : string :=
  String (ascii_of_nat 194) (String (ascii_of_nat 160)
    (String " " (String (ascii_of_nat 239) (String (ascii_of_nat 187)
      (String (ascii_of_nat 191) EmptyString))))).

(** A title between a no-break space (U+00A0) and an ideographic space
    (U+3000). *)
Definition padded_title : string :=
  (String (ascii_of_nat 194) (String (ascii_of_nat 160) " Write tests ")
   ++ String (ascii_of_nat 227) (String (ascii_of_nat 128)
        (String (ascii_of_nat 128) EmptyString)))%string.

(** * Properties *)

Ltac split_refusals refuse :=
  destruct refuse as [|[|] [|[|] ?]].

(** Runs branch on [currentBoard] in [deleteBoard] and on an updater that
    throws in [removeTagFromCard]. *)
Ltac split_run :=
  cbn in *;
  repeat match goal with
         | |- context [is_current ?s ?b] => destruct (is_current s b) eqn:?; cbn in *
         | |- context [map_cards ?f ?l] => destruct (map_cards f l) eqn:?; cbn in *
         | H : In _ ?j |- _ =>
             match j with
             | context [is_current ?s ?b] => destruct (is_current s b) eqn:?; cbn in *
             | context [map_cards ?f ?l] => destruct (map_cards f l) eqn:?; cbn in *
             end
         end.

Ltac find_entry :=
  repeat match goal with
         | H : _ \/ _ |- _ => destruct H
         | H : False |- _ => destruct H
         | H : Issued _ _ _ = Issued _ _ _ |- _ => inversion H; clear H; subst
         | H : _ = Issued _ _ _ |- _ => discriminate H
         end.

(** ** Remote failure leaves the local state as it was *)

(** C4. For every mutating operation, in every state and against every remote
    store and schedule of refusals: when the operation's mutating gateway
    call is refused, the local state after the operation (boards,
    currentBoard, columns, cards, tags) is the state before it. *)
Theorem remote_failure_keeps_store
    (s : Store) (db : Remote) (refuse : list bool) (o : Operation) :
  (exists r sn, mutating r = true
     /\ In (Issued r false sn) (final_journal (perform s o) (world s db refuse)))
  -> final_store (perform s o) (world s db refuse) = s.
Proof.
  intros (r & sn & Hm & Hin).
  unfold final_store, final_journal in *.
  destruct o; split_refusals refuse; split_run; find_entry;
    try discriminate; try reflexivity.
Qed.

Lemma remote_failure_keeps_store_witness :
  final_store (perform (store_of [card_at "A" "todo" 0 []]) (OpDeleteColumn "todo"))
              (world (store_of [card_at "A" "todo" 0 []])
                     (remote_of [card_at "A" "todo" 0 []]) [true])
  = store_of [card_at "A" "todo" 0 []].
Proof.
  apply remote_failure_keeps_store.
  exists (DeleteColumnRow "todo"), (store_of [card_at "A" "todo" 0 []]).
  split; [reflexivity | left; reflexivity].
Defined.

(** ** Order of the gateway call and the local write *)

Lemma createBoard_calls_before_it_writes :
  ~ (forall s db refuse o, applies_before_call s db refuse o).
Proof.
  intros H.
  destruct (H empty_store empty_remote [] (OpCreateBoard "Sprint 1") []
              (InsertBoard "Sprint 1") true empty_store
              [Wrote empty_store
                     (set_boards empty_store [mkBoard "id-0" "Sprint 1" stamp stamp]);
               Toasted true "Board created"]
              eq_refl eq_refl) as (b & a & []).
Qed.

(** C3, amended. Every mutating operation issues its gateway calls first, with
    the local state still as it was before the operation; it writes the local
    state only after a mutating call was answered, and issues no call after a
    write. *)
Theorem writes_follow_answered_call
    (s : Store) (db : Remote) (refuse : list bool) (o : Operation) :
  (forall r a sn,
      In (Issued r a sn) (final_journal (perform s o) (world s db refuse)) -> sn = s)
  /\ writes_after_answer false (final_journal (perform s o) (world s db refuse)) = true.
Proof.
  unfold final_journal.
  split.
  - intros r a sn Hin.
    destruct o; split_refusals refuse; split_run; find_entry;
      try discriminate; try reflexivity.
  - destruct o; split_refusals refuse; split_run; reflexivity.
Qed.

(** ** Runs of the operations when the gateway answers *)

Lemma run_bind {A B} (p : Proc A) (f : A -> Proc B) (w : World) :
  run (bind p f) w =
  match run p w with
  | (Some a, w') => run (f a) w'
  | (None, w') => (None, w')
  end.
Proof.
  revert w. induction p as [a | X e k IH]; intros w; cbn.
  - reflexivity.
  - destruct (step e w) as [[x|] w']; [apply IH | reflexivity].
Qed.

Lemma updateCardPosition_answered (cardId columnId : string) (pos : Z) (w : World) :
  answers (refusals w) ->
  exists w', run (updateCardPosition cardId columnId pos) w = (Some tt, w')
             /\ store w' = set_cards (store w) (placed cardId columnId pos (cards (store w))).
Proof.
  unfold answers. destruct w as [s db [|[|] later] j]; cbn; intros H;
    try discriminate; eexists; split; reflexivity.
Qed.


(** ** Deletes cascade in the local state *)

(** C7. When the gateway answers: after [deleteColumn columnId] no card of
    that column is left among the cards (and every other card is), and after
    [deleteBoard boardId] with [boardId] the selected board, [currentBoard]
    is [null] and the columns and the cards are empty. *)
Theorem delete_cascades_locally (s : Store) (db : Remote) (refuse : list bool) :
  answers refuse ->
  (forall columnId,
      let s' := final_store (deleteColumn columnId) (world s db refuse) in
      (forall c, In c (cards s') -> column_id c <> columnId)
      /\ (forall c, In c (cards s) -> column_id c <> columnId -> In c (cards s'))
      /\ (forall c, In c (columns s') -> col_id c <> columnId))
  /\ (forall boardId b,
        currentBoard s = Some b -> b_id b = boardId ->
        let s' := final_store (deleteBoard s boardId) (world s db refuse) in
        currentBoard s' = None /\ columns s' = [] /\ cards s' = []
        /\ (forall b', In b' (boards s') -> b_id b' <> boardId)).
Proof.
  unfold answers, final_store. intros Hok.
  assert (Hneq : forall a b, negb (a === b) = true <-> a <> b).
  { intros a b. rewrite negb_true_iff. apply String.eqb_neq. }
  split.
  - intros columnId.
    destruct refuse as [|[|] later]; try discriminate; cbn;
      (repeat split; intros c Hin; [| intros Hc |]);
      try (apply filter_In in Hin; destruct Hin as [_ Hin]; now apply Hneq);
      try (apply filter_In; split; [assumption | now apply Hneq]).
  - intros boardId b Hcur Hid.
    assert (Hc : is_current s boardId = true).
    { unfold is_current. rewrite Hcur. now apply String.eqb_eq. }
    destruct refuse as [|[|] later]; try discriminate; cbn; rewrite Hc; cbn;
      (repeat split; try reflexivity);
      intros b' Hin; apply filter_In in Hin; destruct Hin as [_ Hin]; now apply Hneq.
Qed.

Lemma delete_cascades_locally_witness :
  let s := store_of [card_at "A" "todo" 0 []; card_at "B" "done" 0 []] in
  let s' := final_store (deleteBoard s "b1") (world s (remote_of (cards s)) []) in
  currentBoard s' = None /\ columns s' = [] /\ cards s' = []
  /\ (forall b', In b' (boards s') -> b_id b' <> "b1").
Proof.
  intros s.
  apply (proj2 (delete_cascades_locally s (remote_of (cards s)) (refuse := []) eq_refl)
               "b1" sprint1); reflexivity.
Defined.

(** ** Moves between columns *)

Lemma placed_owner (a d : string) (p : Z) (l : list Card) (c : Card) :
  In c (placed a d p l) -> card_id c = a -> column_id c = d.
Proof.
  unfold placed. intros Hin Hid.
  apply in_map_iff in Hin. destruct Hin as (c0 & Hc & _).
  destruct (card_id c0 === a) eqn:E; subst c.
  - reflexivity.
  - cbn in E. apply String.eqb_neq in E. contradiction.
Qed.

Lemma placed_moved (a d : string) (p : Z) (l : list Card) (c0 : Card) :
  In c0 l -> card_id c0 = a ->
  In (spread c0 (position_patch d p)) (placed a d p l).
Proof.
  unfold placed. intros Hin Hid.
  apply in_map_iff. exists c0. split; [| assumption].
  apply String.eqb_eq in Hid. now rewrite Hid.
Qed.

Lemma find_card_found (a : string) (l : list Card) (c : Card) :
  find (fun card => card_id card === a) l = Some c -> In c l /\ card_id c = a.
Proof.
  intros H. apply find_some in H. destruct H as [Hin H].
  split; [assumption | now apply String.eqb_eq].
Qed.

Lemma then_local_keeps_store (p : Proc unit) (c : LocalCell) (w : World) :
  store (snd (run (p;; trigger (SetLocal c)) w)) = store (snd (run p w)).
Proof.
  rewrite run_bind. destruct (run p w) as [[[]|] w']; reflexivity.
Qed.

(** C6. When the gateway answers, a drop of the card [active] on a column, or
    on a card of a column, other than the column that holds it leaves the
    card in the state with the destination as its [column_id], and no card
    with its id among the cards of the source column. *)
Theorem cross_column_move_changes_owner
    (s : Store) (db : Remote) (refuse : list bool)
    (active overId : string) (activeCard : Card) (dest : string) :
  answers refuse ->
  find (fun card => card_id card === active) (cards s) = Some activeCard ->
  destination s overId = Some dest ->
  dest <> column_id activeCard ->
  let s' := final_store (handleDragEnd s active (Some overId)) (world s db refuse) in
  (exists c, In c (cards s') /\ card_id c = active /\ column_id c = dest)
  /\ (forall c, In c (cards s') -> card_id c = active -> column_id c = dest)
  /\ (forall c, In c (cards s') -> column_id c = column_id activeCard ->
                card_id c <> active).
Proof.
  intros Hok Hact Hdest Hneq s'.
  assert (Hs' : exists pos, cards s' = placed active dest pos (cards s)).
  { subst s'. unfold final_store, handleDragEnd. rewrite Hact.
    rewrite then_local_keeps_store.
    unfold destination in Hdest.
    destruct (find (fun column => col_id column === overId) (columns s)) as [col|].
    - injection Hdest as <-.
      destruct (updateCardPosition_answered active (col_id col)
                  (if 0 <? Z.of_nat
                       (length (filter (fun card => column_id card === col_id col)
                                       (cards s)))
                   then math_max (map position
                          (filter (fun card => column_id card === col_id col)
                                  (cards s))) + 1
                   else 0)
                  (world s db refuse) Hok) as (w' & Hrun & Hst).
      rewrite Hrun. cbn [snd]. rewrite Hst. eexists. reflexivity.
    - destruct (find (fun card => card_id card === overId) (cards s)) as [oc|];
        [| discriminate].
      injection Hdest as <-.
      assert (E : (column_id activeCard === column_id oc) = false).
      { apply String.eqb_neq. congruence. }
      rewrite E.
      destruct (updateCardPosition_answered active (column_id oc) (position oc)
                  (world s db refuse) Hok) as (w' & Hrun & Hst).
      rewrite Hrun. cbn [snd]. rewrite Hst. eexists. reflexivity. }
  destruct Hs' as (pos & Hs'). rewrite Hs'.
  destruct (find_card_found _ _ Hact) as [Hin Hid].
  split; [| split].
  - exists (spread activeCard (position_patch dest pos)).
    split; [now apply placed_moved | split; [exact Hid | reflexivity]].
  - intros c Hc Hcid. eapply placed_owner; eassumption.
  - intros c Hc Hcol Hcid. apply Hneq. rewrite <- Hcol.
    symmetry. eapply placed_owner; eassumption.
Qed.

Lemma cross_column_move_changes_owner_witness :
  let s := store_of [card_at "A" "todo" 0 []; card_at "B" "todo" 1 []] in
  let s' := final_store (handleDragEnd s "A" (Some "done"))
                        (world s (remote_of (cards s)) []) in
  (exists c, In c (cards s') /\ card_id c = "A" /\ column_id c = "done")
  /\ (forall c, In c (cards s') -> card_id c = "A" -> column_id c = "done")
  /\ (forall c, In c (cards s') -> column_id c = "todo" -> card_id c <> "A").
Proof.
  intros s.
  apply (@cross_column_move_changes_owner s (remote_of (cards s)) [] "A" "done"
           (card_at "A" "todo" 0 []) "done").
  - reflexivity.
  - reflexivity.
  - reflexivity.
  - discriminate.
Defined.

(** ** Tags of a card *)

Lemma addTagToCard_answered (s : Store) (db : Remote) (refuse : list bool)
    (cardId tagId : string) :
  answers refuse ->
  cards (final_store (addTagToCard s cardId tagId) (world s db refuse))
  = tagged cardId (find (fun t => tag_id t === tagId) (all_tags s)) (cards s).
Proof.
  unfold answers, final_store.
  destruct refuse as [|[|] later]; cbn; intros H; try discriminate; reflexivity.
Qed.


(** C10. When [addTagToCard cardId tagId] is answered by the gateway and no
    tag of the global collection has id [tagId], every card with id [cardId]
    gets an [undefined] entry at the end of its tag list: the result of the
    lookup is appended without a check. *)
Theorem addTag_unknown_appends_undefined
    (s : Store) (db : Remote) (refuse : list bool) (cardId tagId : string) :
  answers refuse ->
  (forall t, In t (all_tags s) -> tag_id t <> tagId) ->
  let s' := final_store (addTagToCard s cardId tagId) (world s db refuse) in
  cards s' = tagged cardId None (cards s)
  /\ (forall c, In c (cards s) -> card_id c = cardId ->
       exists c', In c' (cards s') /\ card_id c' = cardId
                  /\ tags c' = Some (tags_or_empty c ++ [None])).
Proof.
  intros Hok Hnone s'.
  assert (Hfind : find (fun t => tag_id t === tagId) (all_tags s) = None).
  { destruct (find (fun t => tag_id t === tagId) (all_tags s)) as [t|] eqn:E;
      [| reflexivity].
    apply find_some in E. destruct E as [Hin E].
    apply String.eqb_eq in E. now apply Hnone in Hin. }
  assert (Hs' : cards s' = tagged cardId None (cards s)).
  { subst s'. rewrite addTagToCard_answered by assumption. now rewrite Hfind. }
  split; [exact Hs' |].
  intros c Hin Hid. rewrite Hs'.
  exists (with_tags c (Some (tags_or_empty c ++ [None]))).
  split; [| split; [exact Hid | reflexivity]].
  unfold tagged. apply in_map_iff. exists c. split; [| assumption].
  apply String.eqb_eq in Hid. now rewrite Hid.
Qed.

Lemma addTag_unknown_appends_undefined_witness :
  let s := store_of [card_at "A" "todo" 0 []] in
  let s' := final_store (addTagToCard s "A" "t9") (world s (remote_of (cards s)) []) in
  cards s' = tagged "A" None (cards s)
  /\ (forall c, In c (cards s) -> card_id c = "A" ->
       exists c', In c' (cards s') /\ card_id c' = "A"
                  /\ tags c' = Some (tags_or_empty c ++ [None])).
Proof.
  intros s.
  apply (@addTag_unknown_appends_undefined s (remote_of (cards s)) [] "A" "t9").
  - reflexivity.
  - intros t [<- | []]. discriminate.
Defined.


(** ** Validation *)

Lemma createCard_empty_title_reaches_gateway :
  ~ (forall s db refuse title columnId,
        title = "" \/ (forall col, In col (columns s) -> col_id col <> columnId) ->
        rejected_locally (createCard title columnId) (world s db refuse)).
Proof.
  intros H.
  destruct (H (store_of []) (remote_of []) [] "" "nowhere" (or_introl eq_refl))
    as [Hcalls _].
  specialize (Hcalls (Issued (SelectTopCardPosition "nowhere") true (store_of []))
                     (or_introl eq_refl)).
  discriminate Hcalls.
Qed.

(** C8, amended. The operations of the context validate nothing: for every
    title and every column id, [createCard] issues its select and its insert
    with the local state untouched, and the gateway decides.  The empty title
    is rejected by the handlers of the components: with a title that trims to
    the empty string, [handleCreateBoard], [handleCreateColumn] and
    [handleCreateCard] return at once, with no gateway call and no write.  The
    parent id is checked nowhere locally. *)
Theorem empty_title_stops_in_handlers
    (s : Store) (db : Remote) (refuse : list bool) (title : string) :
  (forall columnId, exists a1 a2 pos rest,
      final_journal (createCard title columnId) (world s db refuse)
      = Issued (SelectTopCardPosition columnId) a1 s
        :: Issued (InsertCard title columnId pos) a2 s :: rest)
  /\ (trim title = "" ->
      rejected_locally (handleCreateBoard title) (world s db refuse)
      /\ rejected_locally (handleCreateColumn s title) (world s db refuse)
      /\ (forall columnId,
            rejected_locally (handleCreateCard columnId title) (world s db refuse))).
Proof.
  split.
  - intros columnId. unfold final_journal.
    split_refusals refuse; cbn; do 4 eexists; reflexivity.
  - intros Ht.
    unfold rejected_locally, final_journal, final_store,
      handleCreateBoard, handleCreateColumn, handleCreateCard.
    rewrite Ht. cbn.
    repeat split; try (intros e []); reflexivity.
Qed.

Lemma empty_title_stops_in_handlers_witness :
  rejected_locally (handleCreateBoard blank_title) (world empty_store empty_remote [])
  /\ rejected_locally (handleCreateColumn empty_store blank_title)
                      (world empty_store empty_remote [])
  /\ (forall columnId,
        rejected_locally (handleCreateCard columnId blank_title)
                         (world empty_store empty_remote [])).
Proof.
  apply (proj2 (empty_title_stops_in_handlers empty_store empty_remote [] blank_title)).
  reflexivity.
Defined.

(** ** Positions after a create and after a drop *)

(** [handleDragEnd] given the id of a card of another column as [over.id].
    The components register the columns as the only droppables, so a drop
    does not deliver this; with it, A takes the position of B in "Done". *)
Example handler_given_card_of_other_column :
  let s := store_of [card_at "A" "todo" 0 []; card_at "B" "done" 0 []] in
  let s' := final_store (handleDragEnd s "A" (Some "B"))
                        (world s (remote_of (cards s)) []) in
  cards s' = [card_at "A" "done" 0 []; card_at "B" "done" 0 []].
Proof. reflexivity. Qed.

(** C2. [createCard "B" "todo"] in a state whose column "To Do" holds card A
    at 0, with the position select refused and the insert answered: the
    error of the select is not read, B is inserted at 0 and added to the
    cards, and two cards of "To Do" share position 0. *)
Theorem create_after_refused_select_shares_position :
  let cs := [card_at "A" "todo" 0 []] in
  let s := store_of cs in
  let s' := final_store (createCard "B" "todo")
                        (world s (remote_of cs) [true; false]) in
  positions_unique s
  /\ cards s' = [card_at "A" "todo" 0 [];
                 mkCard "id-0" "todo" "B" None 0 stamp stamp (Some [])]
  /\ positions_in s' "todo" = [0; 0]
  /\ ~ positions_unique s'.
Proof.
  cbv zeta. split; [| split; [| split]].
  - intros col [<- | [<- | []]]; cbn; repeat (constructor; try (intros []; fail)).
  - reflexivity.
  - reflexivity.
  - intros H. specialize (H todo (or_introl eq_refl)).
    cbn in H. inversion H as [| x l Hnot _]. apply Hnot. now left.
Qed.

(** C1. Card C is dragged and dropped on card A in the column "To Do" that
    holds A at 0, B at 1 and C at 2; the requested order is C, A, B.  Cards
    are not droppable, so [handleDragEnd] is given the column as [over.id]:
    C is given position 3 and the others are left, so the positions are
    0, 1, 3 and not 0, 1, 2, C is not at its new index 0, and the column
    still shows A, B, C.  Given the card A as [over.id], the handler throws
    at [arrayMove], with no gateway call and the state as it was. *)
Theorem same_column_drop_is_not_a_reorder :
  let s := store_of [card_at "A" "todo" 0 []; card_at "B" "todo" 1 [];
                     card_at "C" "todo" 2 []] in
  let w := world s (remote_of (cards s)) [] in
  let s' := final_store (handleDragEnd s "C" (Some "todo")) w in
  map card_id (requested_order s "todo" "C" "A") = ["C"; "A"; "B"]
  /\ cards s' = [card_at "A" "todo" 0 []; card_at "B" "todo" 1 [];
                 card_at "C" "todo" 3 []]
  /\ positions_in s' "todo" = [0; 1; 3]
  /\ ~ Permutation (positions_in s' "todo") [0; 1; 2]
  /\ map card_id (displayed s' "todo") = ["A"; "B"; "C"]
  /\ run (handleDragEnd s "C" (Some "A")) w
     = (None, mkWorld s (remote_of (cards s)) [] [Thrown "TypeError"]).
Proof.
  cbv zeta. repeat split; try reflexivity.
  intros H. cbn in H.
  assert (Hin : In 3 [0; 1; 2]).
  { eapply Permutation_in; [exact H | right; right; now left]. }
  cbn in Hin. lia.
Qed.

(** ** Positions of new cards and columns *)

Lemma insert_desc_top (a : Z) (l : list Z) :
  exists rest, insert_desc a l = Z.max a (hd a l) :: rest.
Proof.
  destruct l as [| y r]; cbn.
  - exists []. now rewrite Z.max_id.
  - destruct (y <=? a) eqn:E.
    + apply Z.leb_le in E. exists (y :: r). now rewrite Z.max_l.
    + apply Z.leb_gt in E. eexists. rewrite Z.max_r by lia. reflexivity.
Qed.

Lemma order_desc_top (l : list Z) :
  match order_desc l with
  | [] => l = []
  | m :: _ => In m l /\ forall x, In x l -> x <= m
  end.
Proof.
  induction l as [| a l IH]; cbn; [reflexivity |].
  destruct (insert_desc_top a (order_desc l)) as (rest & ->).
  destruct (order_desc l) as [| m r]; cbn.
  - subst l. rewrite Z.max_id. split; [now left | intros x [<- | []]; lia].
  - destruct IH as [Hin Hmax]. split.
    + destruct (Z.max_spec a m) as [[_ ->] | [_ ->]]; [now right | now left].
    + intros x [<- | Hx]; [lia | specialize (Hmax x Hx); lia].
Qed.

(** The position computed from the answer of the select is the append
    position of the rows the select ranged over. *)
Lemma next_position_is_append (l : list Z) :
  is_append_position l (next_position (Answered (firstn 1 (order_desc l)))).
Proof.
  pose proof (order_desc_top l) as H.
  destruct (order_desc l) as [| m r]; cbn.
  - now subst l.
  - destruct H as [Hin Hmax]. unfold is_append_position.
    destruct l as [| a l']; [destruct Hin |].
    replace (m + 1 - 1) with m by lia. now split.
Qed.

Lemma append_position_unique (l : list Z) (p q : Z) :
  is_append_position l p -> is_append_position l q -> p = q.
Proof.
  unfold is_append_position. destruct l as [| a l]; [congruence |].
  intros [Hp Hpm] [Hq Hqm]. specialize (Hpm _ Hq). specialize (Hqm _ Hp). lia.
Qed.

Lemma append_position_next (l : list Z) (p : Z) :
  is_append_position l p -> is_append_position (l ++ [p]) (p + 1).
Proof.
  unfold is_append_position. intros H.
  assert (Hle : forall x, In x l -> x <= p - 1).
  { destruct l; [intros x [] | apply H]. }
  destruct (l ++ [p]) as [| b r] eqn:E; [now destruct l |].
  rewrite <- E. replace (p + 1 - 1) with p by lia. split.
  - apply in_or_app. right. now left.
  - intros x Hx. apply in_app_or in Hx. destruct Hx as [Hx | [<- | []]]; [| lia].
    specialize (Hle x Hx). lia.
Qed.

Lemma append_position_nonneg (l : list Z) (p : Z) :
  (forall x, In x l -> 0 <= x) -> is_append_position l p -> 0 <= p.
Proof.
  unfold is_append_position. destruct l as [| a l]; [lia |].
  intros Hpos [Hin _]. specialize (Hpos _ Hin). lia.
Qed.

Lemma all_answered_tl (refuse : list bool) :
  all_answered refuse -> all_answered (tl refuse).
Proof.
  unfold all_answered. destruct refuse; cbn; [auto |]. intros H. now inversion H.
Qed.

Lemma answer_when_answered (r : Request) (w : World) :
  answers (refusals w) ->
  answer r w
  = (Answered (fst (serve r (remote w))),
     mkWorld (store w) (snd (serve r (remote w))) (tl (refusals w))
             (journal w ++ [Issued r true (store w)])).
Proof.
  unfold answers, answer. destruct (serve r (remote w)) as [data db'].
  destruct (refusals w) as [| [|] later]; cbn; intros H; try discriminate; reflexivity.
Qed.

Lemma answers_of_all (refuse : list bool) : all_answered refuse -> answers refuse.
Proof.
  unfold all_answered, answers. destruct refuse as [| b r]; [reflexivity |].
  intros H. inversion H. now subst.
Qed.

(** One answered [createCard]: its result and the remote rows after it. *)
Lemma createCard_answered (title columnId : string) (w : World) :
  answers (refusals w) -> answers (tl (refusals w)) ->
  exists card w',
    run (createCard title columnId) w = (Some (Some card), w')
    /\ column_id card = columnId
    /\ position card
       = next_position
           (Answered (firstn 1 (order_desc (card_positions (remote w) columnId))))
    /\ card_positions (remote w') columnId
       = card_positions (remote w) columnId ++ [position card]
    /\ refusals w' = tl (tl (refusals w))
    /\ In card (cards (store w')).
Proof.
  intros H1 H2. unfold createCard. cbn [bind trigger run step].
  rewrite (answer_when_answered (SelectTopCardPosition columnId) w H1).
  cbn [fst snd serve bind run step].
  rewrite answer_when_answered by exact H2.
  cbn [fst snd serve bind run step store remote refusals journal write record].
  do 2 eexists. split; [reflexivity |].
  cbn. repeat split.
  - unfold card_positions. cbn. rewrite filter_app, map_app. cbn.
    now rewrite String.eqb_refl.
  - apply in_or_app. right. now left.
Qed.

Lemma createCard_select_refused (title columnId : string) (w : World) (later : list bool) :
  refusals w = true :: false :: later ->
  exists card w',
    run (createCard title columnId) w = (Some (Some card), w') /\ position card = 0.
Proof.
  intros H. destruct w as [s db refuse j]. cbn in H. subst refuse.
  cbn. do 2 eexists. split; reflexivity.
Qed.

Lemma createColumn_answered (title boardId : string) (w : World) :
  answers (refusals w) -> answers (tl (refusals w)) ->
  exists column w',
    run (createColumn title boardId) w = (Some (Some column), w')
    /\ board_id column = boardId
    /\ col_position column
       = next_position
           (Answered (firstn 1 (order_desc (column_positions (remote w) boardId))))
    /\ column_positions (remote w') boardId
       = column_positions (remote w) boardId ++ [col_position column]
    /\ refusals w' = tl (tl (refusals w))
    /\ In column (columns (store w')).
Proof.
  intros H1 H2. unfold createColumn. cbn [bind trigger run step].
  rewrite (answer_when_answered (SelectTopColumnPosition boardId) w H1).
  cbn [fst snd serve bind run step].
  rewrite answer_when_answered by exact H2.
  cbn [fst snd serve bind run step store remote refusals journal write record].
  do 2 eexists. split; [reflexivity |].
  cbn. repeat split.
  - unfold column_positions. cbn. rewrite filter_app, map_app. cbn.
    now rewrite String.eqb_refl.
  - apply in_or_app. right. now left.
Qed.

Lemma shifted_positions (p : Z) (n : nat) :
  map (fun i => Some (p + 1 + Z.of_nat i)) (seq 0 n)
  = map (fun i => Some (p + Z.of_nat i)) (seq 1 n).
Proof.
  rewrite <- seq_shift, map_map. apply map_ext. intros i. f_equal. lia.
Qed.

Lemma createCards_positions (columnId : string) (titles : list string) :
  forall (w : World) (p : Z),
    all_answered (refusals w) ->
    is_append_position (card_positions (remote w) columnId) p ->
    map (option_map position) (fst (createCards titles columnId w))
    = map (fun i => Some (p + Z.of_nat i)) (seq 0 (length titles)).
Proof.
  induction titles as [| title later IH]; intros w p Hall Hp; [reflexivity |].
  pose proof (all_answered_tl Hall) as Hall1.
  pose proof (all_answered_tl Hall1) as Hall2.
  destruct (createCard_answered title columnId w
              (answers_of_all Hall) (answers_of_all Hall1))
    as (card & w' & Hrun & _ & Hpos & Hrows & Href & _).
  assert (Hcard : position card = p).
  { eapply append_position_unique; [| exact Hp].
    rewrite Hpos. apply next_position_is_append. }
  cbn [createCards]. unfold created. rewrite Hrun.
  specialize (IH w' (p + 1)).
  destruct (createCards later columnId w') as [more w''].
  cbn [fst map length seq option_map] in *.
  rewrite Hcard, Z.add_0_r. f_equal.
  rewrite <- shifted_positions. apply IH.
  - now rewrite Href.
  - rewrite Hrows, Hcard. now apply append_position_next.
Qed.

Lemma createColumns_positions (boardId : string) (titles : list string) :
  forall (w : World) (p : Z),
    all_answered (refusals w) ->
    is_append_position (column_positions (remote w) boardId) p ->
    map (option_map col_position) (fst (createColumns titles boardId w))
    = map (fun i => Some (p + Z.of_nat i)) (seq 0 (length titles)).
Proof.
  induction titles as [| title later IH]; intros w p Hall Hp; [reflexivity |].
  pose proof (all_answered_tl Hall) as Hall1.
  pose proof (all_answered_tl Hall1) as Hall2.
  destruct (createColumn_answered title boardId w
              (answers_of_all Hall) (answers_of_all Hall1))
    as (column & w' & Hrun & _ & Hpos & Hrows & Href & _).
  assert (Hcol : col_position column = p).
  { eapply append_position_unique; [| exact Hp].
    rewrite Hpos. apply next_position_is_append. }
  cbn [createColumns]. unfold created. rewrite Hrun.
  specialize (IH w' (p + 1)).
  destruct (createColumns later boardId w') as [more w''].
  cbn [fst map length seq option_map] in *.
  rewrite Hcol, Z.add_0_r. f_equal.
  rewrite <- shifted_positions. apply IH.
  - now rewrite Href.
  - rewrite Hrows, Hcol. now apply append_position_next.
Qed.

Lemma append_position_same_members (l l' : list Z) (p : Z) :
  (forall x, In x l' <-> In x l) ->
  is_append_position l p -> is_append_position l' p.
Proof.
  unfold is_append_position. intros Hsame H.
  destruct l as [| a l]; destruct l' as [| a' l'].
  - exact H.
  - destruct (proj1 (Hsame a') (or_introl eq_refl)).
  - destruct (proj2 (Hsame a) (or_introl eq_refl)).
  - destruct H as [Hin Hmax]. split.
    + now apply Hsame.
    + intros x Hx. now apply Hmax, Hsame.
Qed.

(** X23. When the gateway answers the two calls of the operation (the select
    of the top position and the insert), [createCard] returns a card of the
    column, and [createColumn] a column of the board, whose position is one
    plus the maximum of the positions of its siblings, or 0 when it has none;
    the entity is added to the local state.  The siblings are the rows of the
    remote store, and the cards or columns of the local state when these hold
    the same positions.  Hence creates issued one after the other, all
    answered, in a scope that starts empty get the positions 0, 1, 2, ... in
    the order of creation. *)
Theorem create_takes_append_position (w : World) (title parent : string) :
  answers (refusals w) -> answers (tl (refusals w)) ->
  (exists card w',
      created (createCard title parent) w = (Some card, w')
      /\ column_id card = parent
      /\ is_append_position (card_positions (remote w) parent) (position card)
      /\ ((forall x, In x (positions_in (store w) parent)
                     <-> In x (card_positions (remote w) parent)) ->
          is_append_position (positions_in (store w) parent) (position card))
      /\ In card (cards (store w')))
  /\ (exists column w',
      created (createColumn title parent) w = (Some column, w')
      /\ board_id column = parent
      /\ is_append_position (column_positions (remote w) parent) (col_position column)
      /\ ((forall x, In x (column_positions_in (store w) parent)
                     <-> In x (column_positions (remote w) parent)) ->
          is_append_position (column_positions_in (store w) parent)
                             (col_position column))
      /\ In column (columns (store w')))
  /\ (forall titles,
        all_answered (refusals w) ->
        card_positions (remote w) parent = [] ->
        map (option_map position) (fst (createCards titles parent w))
        = map Some (first_positions (length titles)))
  /\ (forall titles,
        all_answered (refusals w) ->
        column_positions (remote w) parent = [] ->
        map (option_map col_position) (fst (createColumns titles parent w))
        = map Some (first_positions (length titles))).
Proof.
  intros H1 H2.
  split; [| split; [| split]].
  - destruct (createCard_answered title parent w H1 H2)
      as (card & w' & Hrun & Hcol & Hpos & _ & _ & Hin).
    assert (Hrule : is_append_position (card_positions (remote w) parent)
                                       (position card)).
    { rewrite Hpos. apply next_position_is_append. }
    exists card, w'. unfold created. rewrite Hrun.
    split; [reflexivity |]. split; [exact Hcol |]. split; [exact Hrule |].
    split; [| exact Hin].
    intros Hsame. eapply append_position_same_members; eassumption.
  - destruct (createColumn_answered title parent w H1 H2)
      as (column & w' & Hrun & Hb & Hpos & _ & _ & Hin).
    assert (Hrule : is_append_position (column_positions (remote w) parent)
                                       (col_position column)).
    { rewrite Hpos. apply next_position_is_append. }
    exists column, w'. unfold created. rewrite Hrun.
    split; [reflexivity |]. split; [exact Hb |]. split; [exact Hrule |].
    split; [| exact Hin].
    intros Hsame. eapply append_position_same_members; eassumption.
  - intros titles Hall Hempty.
    rewrite (@createCards_positions parent titles w 0 Hall).
    + unfold first_positions. rewrite map_map. reflexivity.
    + now rewrite Hempty.
  - intros titles Hall Hempty.
    rewrite (@createColumns_positions parent titles w 0 Hall).
    + unfold first_positions. rewrite map_map. reflexivity.
    + now rewrite Hempty.
Qed.

Lemma create_takes_append_position_witness :
  map (option_map position)
      (fst (createCards ["Design"; "Build"; "Ship"] "todo"
                        (world (store_of []) (remote_of []) [])))
  = [Some 0; Some 1; Some 2].
Proof.
  exact (proj1 (proj2 (proj2
           (@create_takes_append_position (world (store_of []) (remote_of []) [])
              "Design" "todo" eq_refl eq_refl)))
           ["Design"; "Build"; "Ship"] (Forall_nil _) eq_refl).
Defined.

(** The select refused and the insert answered: the column holds a card at 0
    and the new card is given 0 as well. *)
Example createCard_after_refused_select :
  let cs := [card_at "A" "todo" 0 []] in
  option_map position
    (fst (created (createCard "B" "todo")
                  (world (store_of cs) (remote_of cs) [true; false])))
  = Some 0.
Proof. reflexivity. Qed.

(** C5. [createCard "C" "todo"] with the cards A at 0 and B at 5 in "To Do",
    and [createColumn "Review" "b1"] with the columns at 0 and 1, each with
    the position select refused and the insert answered: the create
    succeeds and the entity is given position 0, where one plus the maximum
    of the siblings is 6 for the card and 2 for the column. *)
Theorem create_after_refused_select_ignores_siblings :
  let cs := [card_at "A" "todo" 0 []; card_at "B" "todo" 5 []] in
  let w := world (store_of cs) (remote_of cs) [true; false] in
  (exists card w',
      created (createCard "C" "todo") w = (Some card, w')
      /\ position card = 0
      /\ card_positions (remote w) "todo" = [0; 5]
      /\ is_append_position (card_positions (remote w) "todo") 6
      /\ ~ is_append_position (card_positions (remote w) "todo") (position card))
  /\ (exists column w',
      created (createColumn "Review" "b1") w = (Some column, w')
      /\ col_position column = 0
      /\ column_positions (remote w) "b1" = [0; 1]
      /\ is_append_position (column_positions (remote w) "b1") 2
      /\ ~ is_append_position (column_positions (remote w) "b1")
                              (col_position column)).
Proof.
  cbv zeta. split; do 2 eexists; (split; [reflexivity |]); cbn;
    repeat split; try (intros; lia); auto; intros [[H | [H | []]] _]; lia.
Qed.

(** ** What a drop does in general *)


Lemma insert_by_position_In (x c : Card) (l : list Card) :
  In c (insert_by_position x l) <-> c = x \/ In c l.
Proof.
  induction l as [| y l IH]; cbn.
  - intuition congruence.
  - destruct (position x <=? position y); cbn; [intuition congruence |].
    rewrite IH. intuition congruence.
Qed.

Lemma sort_by_position_In (c : Card) (l : list Card) :
  In c (sort_by_position l) <-> In c l.
Proof.
  induction l as [| x l IH]; cbn; [reflexivity |].
  rewrite insert_by_position_In, IH. intuition congruence.
Qed.

(** [findIndex] answers [-1] when no element passes, else the index of the
    first that does. *)
Lemma findIndex_from_spec {A} (p : A -> bool) (l : list A) :
  forall i, 0 <= i ->
    (findIndex_from p i l = -1 /\ forall x, In x l -> p x = false)
    \/ (exists n c, findIndex_from p i l = i + Z.of_nat n
                    /\ nth_error l n = Some c /\ p c = true).
Proof.
  induction l as [| x l IH]; intros i Hi; cbn.
  - left. split; [reflexivity | intros x []].
  - destruct (p x) eqn:E.
    + right. exists O, x. repeat split; [cbn; lia | assumption].
    + destruct (IH (i + 1)) as [[H1 H2] | (n & c & H1 & H2 & H3)]; [lia | |].
      * left. split; [exact H1 |]. intros y [<- | Hy]; [exact E | now apply H2].
      * right. exists (S n), c. repeat split; [lia | assumption | assumption].
Qed.

Lemma findIndex_found {A} (p : A -> bool) (l : list A) (x : A) :
  In x l -> p x = true ->
  exists n c, findIndex p l = Z.of_nat n /\ nth_error l n = Some c /\ p c = true.
Proof.
  intros Hin Hp. unfold findIndex.
  destruct (findIndex_from_spec p l (i := 0)) as [[_ H] | (n & c & H1 & H2 & H3)];
    [lia | | ].
  - rewrite (H x Hin) in Hp. discriminate.
  - exists n, c. repeat split; [rewrite H1; lia | assumption | assumption].
Qed.

Section Drop.

Variables (s : Store) (db : Remote) (refuse : list bool).
Variables (active overId : string) (activeCard : Card).
Hypothesis Hok : answers refuse.
Hypothesis Hact : find (fun card => card_id card === active) (cards s) = Some activeCard.


End Drop.

(** * Further properties of the context operations *)

(** ** What an operation leaves alone *)

(** X1. No operation writes the global tags or [isLoading], and the
    operations on cards and their tags write nothing but the cards: boards,
    [currentBoard] and columns stay as they were, whatever the gateway
    answers. *)
Theorem operations_write_their_own_collection
    (s : Store) (db : Remote) (refuse : list bool) (o : Operation) :
  let s' := final_store (perform s o) (world s db refuse) in
  all_tags s' = all_tags s
  /\ isLoading s' = isLoading s
  /\ (if card_operation o
      then boards s' = boards s /\ currentBoard s' = currentBoard s
           /\ columns s' = columns s
      else True).
Proof.
  unfold final_store.
  destruct o; split_refusals refuse; split_run; repeat split; reflexivity.
Qed.

(** ** Notifications *)

(** X2. Every operation issues exactly one mutating call.  When it is
    refused the operation logs one line to the console and shows one error
    toast, and nothing else; when it is answered, and no updater threw, it
    shows one success toast and logs nothing, except [updateCardPosition],
    which shows none. *)
Theorem operations_notify_once
    (s : Store) (db : Remote) (refuse : list bool) (o : Operation) :
  let j := final_journal (perform s o) (world s db refuse) in
  match outcomes j with
  | [false] =>
      (exists msg, toasts j = [(false, msg)]) /\ length (logged j) = 1%nat
      /\ thrown j = []
  | [true] =>
      logged j = []
      /\ (thrown j = [] ->
          match o with
          | OpUpdateCardPosition _ _ _ => toasts j = []
          | _ => exists msg, toasts j = [(true, msg)]
          end)
  | _ => False
  end.
Proof.
  unfold final_journal.
  destruct o; split_refusals refuse; split_run;
    repeat split; try reflexivity; try (eexists; reflexivity);
    try (intros; eexists; reflexivity); try (intros H; discriminate H).
Qed.

(** ** Operations addressed to a card that is not there *)

Lemma map_unmatched {A} (p : A -> bool) (f : A -> A) (l : list A) :
  (forall x, In x l -> p x = false) ->
  map (fun x => if p x then f x else x) l = l.
Proof.
  induction l as [| a l IH]; intros H; cbn; [reflexivity |].
  rewrite (H a (or_introl eq_refl)), IH; [reflexivity |].
  intros x Hx. apply H. now right.
Qed.

Lemma filter_unmatched {A} (p : A -> bool) (l : list A) :
  (forall x, In x l -> p x = false) ->
  filter (fun x => negb (p x)) l = l.
Proof.
  induction l as [| a l IH]; intros H; cbn; [reflexivity |].
  rewrite (H a (or_introl eq_refl)). cbn. rewrite IH; [reflexivity |].
  intros x Hx. apply H. now right.
Qed.

Lemma map_cards_unmatched (p : Card -> bool) (f : Card -> option Card) (l : list Card) :
  (forall x, In x l -> p x = false) ->
  map_cards (fun x => if p x then f x else Some x) l = Some l.
Proof.
  induction l as [| a l IH]; intros H; cbn; [reflexivity |].
  rewrite (H a (or_introl eq_refl)), IH; [reflexivity |].
  intros x Hx. apply H. now right.
Qed.

Lemma set_cards_same (s : Store) : set_cards s (cards s) = s.
Proof. now destruct s. Qed.

(** X3. An operation addressed to a card id that no card of the state has
    (update, move, delete, add or remove a tag) still issues its gateway
    call, and leaves the local state exactly as it was whether the call is
    answered or refused. *)
Theorem unknown_card_changes_nothing
    (s : Store) (db : Remote) (refuse : list bool) (o : Operation) (cardId : string) :
  addressed_card o = Some cardId ->
  (forall c, In c (cards s) -> card_id c <> cardId) ->
  final_store (perform s o) (world s db refuse) = s
  /\ length (calls (final_journal (perform s o) (world s db refuse))) = 1%nat.
Proof.
  intros Ho Hnone.
  assert (Hp : forall c, In c (cards s) -> (card_id c === cardId) = false).
  { intros c Hc. apply String.eqb_neq. now apply Hnone. }
  unfold final_store, final_journal.
  destruct o; try discriminate Ho; injection Ho as ->;
    destruct refuse as [| [|] later]; cbn;
    unfold placed, tagged;
    rewrite ?(map_unmatched _ _ _ Hp), ?(filter_unmatched _ _ Hp),
            ?(map_cards_unmatched _ _ _ Hp);
    cbn; rewrite ?set_cards_same; split; reflexivity.
Qed.

Lemma unknown_card_changes_nothing_witness :
  let s := store_of [card_at "A" "todo" 0 []] in
  final_store (perform s (OpDeleteCard "Z")) (world s (remote_of (cards s)) []) = s
  /\ length (calls (final_journal (perform s (OpDeleteCard "Z"))
                                  (world s (remote_of (cards s)) []))) = 1%nat.
Proof.
  intros s.
  apply (@unknown_card_changes_nothing s (remote_of (cards s)) []
           (OpDeleteCard "Z") "Z" eq_refl).
  intros c [<- | []]. discriminate.
Defined.

(** ** Editing a card *)

Lemma updateCard_cards (s : Store) (db : Remote) (refuse : list bool)
    (id : string) (patch : CardPatch) :
  cards (final_store (updateCard id patch) (world s db refuse)) = cards s
  \/ cards (final_store (updateCard id patch) (world s db refuse))
     = map (fun c => if card_id c === id then spread c patch else c) (cards s).
Proof.
  unfold final_store. destruct refuse as [| [|] later]; cbn; auto.
Qed.

Lemma positions_of_mapped (f : Card -> Card) (col : string) (l : list Card) :
  (forall c, column_id (f c) = column_id c) ->
  (forall c, position (f c) = position c) ->
  map position (filter (fun card => column_id card === col) (map f l))
  = map position (filter (fun card => column_id card === col) l).
Proof.
  intros Hc Hp. induction l as [| a l IH]; cbn; [reflexivity |].
  rewrite Hc. destruct (column_id a === col); cbn; [rewrite Hp |]; now rewrite IH.
Qed.

(** X4. [updateCard] never changes the id of a card, the number or the order
    of the cards, or a card with another id; and a patch without [column_id]
    and [position] (as the edit form and the description dialog send) leaves
    every card in its column at its position. *)
Theorem updateCard_keeps_place
    (s : Store) (db : Remote) (refuse : list bool) (id : string) (patch : CardPatch) :
  let s' := final_store (updateCard id patch) (world s db refuse) in
  map card_id (cards s') = map card_id (cards s)
  /\ (forall c, In c (cards s') -> card_id c <> id -> In c (cards s))
  /\ (p_column_id patch = None -> p_position patch = None ->
      map column_id (cards s') = map column_id (cards s)
      /\ map position (cards s') = map position (cards s)
      /\ forall col, positions_in s' col = positions_in s col).
Proof.
  intros s'. subst s'.
  set (f := fun c => if card_id c === id then spread c patch else c).
  assert (Hid : forall c, card_id (f c) = card_id c).
  { intros c. unfold f. now destruct (card_id c === id). }
  destruct (updateCard_cards s db refuse id patch) as [E | E].
  - unfold positions_in. rewrite E. repeat split; auto.
  - fold f in E. unfold positions_in. rewrite E. split; [| split].
    + rewrite map_map. now apply map_ext.
    + intros c Hc Hne. apply in_map_iff in Hc. destruct Hc as (c0 & Hf & Hin).
      unfold f in Hf. destruct (card_id c0 === id) eqn:Eid.
      * apply String.eqb_eq in Eid. subst c. cbn in Hne. contradiction.
      * now subst c.
    + intros Hcol Hpos.
      assert (Hc : forall c, column_id (f c) = column_id c).
      { intros c. unfold f. destruct (card_id c === id); [| reflexivity].
        cbn. now rewrite Hcol. }
      assert (Hp : forall c, position (f c) = position c).
      { intros c. unfold f. destruct (card_id c === id); [| reflexivity].
        cbn. now rewrite Hpos. }
      split; [| split].
      * rewrite map_map. now apply map_ext.
      * rewrite map_map. now apply map_ext.
      * intros col. now apply positions_of_mapped.
Qed.

Lemma updateCard_keeps_place_witness :
  let s := store_of [card_at "A" "todo" 0 []; card_at "B" "todo" 1 []] in
  let patch := mkPatch None (Some "Write the tests") (Some None) None None None None in
  let s' := final_store (updateCard "A" patch) (world s (remote_of (cards s)) []) in
  map column_id (cards s') = map column_id (cards s)
  /\ map position (cards s') = map position (cards s)
  /\ forall col, positions_in s' col = positions_in s col.
Proof.
  intros s patch.
  exact (proj2 (proj2 (@updateCard_keeps_place s (remote_of (cards s)) [] "A" patch))
               eq_refl eq_refl).
Defined.

(** ** Invariants kept by the deletes *)

Lemma filter_swap {A} (p q : A -> bool) (l : list A) :
  filter p (filter q l) = filter q (filter p l).
Proof.
  induction l as [| a l IH]; cbn; [reflexivity |].
  destruct (p a) eqn:Ep, (q a) eqn:Eq; cbn; rewrite ?Ep, ?Eq, IH; reflexivity.
Qed.

Lemma kept_keys_distinct {V K} (key : V -> K) (keep : V -> bool) (vs : list V)
    (Hkeys : NoDup (map key vs)) :
  NoDup (map key (filter keep vs)).
Proof.
  induction vs as [| v vs IH]; cbn in *; [exact Hkeys |].
  apply NoDup_cons_iff in Hkeys. destruct Hkeys as [Hfresh Hrest].
  destruct (keep v); cbn; [| now apply IH].
  apply NoDup_cons_iff. split; [| now apply IH].
  intros Hin. apply Hfresh.
  apply in_map_iff in Hin. destruct Hin as (u & Hu & Hin).
  apply filter_In in Hin. rewrite <- Hu. apply in_map. tauto.
Qed.

Lemma delete_shrinks (s : Store) (db : Remote) (refuse : list bool) (o : Operation) :
  delete_operation o = true ->
  let s' := final_store (perform s o) (world s db refuse) in
  (exists keep, cards s' = filter keep (cards s))
  /\ (exists keep, columns s' = filter keep (columns s)).
Proof.
  intros Ho. unfold final_store.
  destruct o; try discriminate Ho; destruct refuse as [| [|] later]; cbn;
    try destruct (is_current s boardId); cbn;
    split;
    first [ now (eexists; reflexivity)
          | now (exists (fun _ => true); symmetry; apply forallb_filter_id,
                                                    forallb_forall)
          | now (exists (fun _ => false); symmetry;
                 clear; match goal with |- filter _ ?l = [] =>
                          induction l; cbn; auto end) ].
Qed.

(** X5. The deletes keep the invariants of the state: after [deleteCard],
    [deleteColumn] or [deleteBoard], answered or refused, no two cards of a
    column share a position, no card holds a tag id twice, and every card
    belongs to a column of the state, whenever that was so before. *)
Theorem deletes_keep_invariants
    (s : Store) (db : Remote) (refuse : list bool) (o : Operation) :
  delete_operation o = true ->
  let s' := final_store (perform s o) (world s db refuse) in
  (positions_unique s -> positions_unique s')
  /\ (tags_unique s -> tags_unique s')
  /\ (cards_have_columns s -> cards_have_columns s').
Proof.
  intros Ho s'.
  destruct (delete_shrinks s db refuse o Ho) as [(kc & Hcards) (kl & Hcols)].
  fold s' in Hcards, Hcols.
  split; [| split].
  - intros H col Hcol. rewrite Hcols in Hcol. apply filter_In in Hcol.
    unfold positions_in. rewrite Hcards, filter_swap.
    apply kept_keys_distinct. apply (H col). tauto.
  - intros H c Hc. rewrite Hcards in Hc. apply filter_In in Hc. apply H. tauto.
  - intros H c Hc.
    unfold s', final_store in *.
    destruct o; try discriminate Ho; destruct refuse as [| [|] later]; cbn in *;
      try (destruct (is_current s boardId); cbn in * );
      try (now apply H); try (now destruct Hc).
    + apply filter_In in Hc. destruct Hc as [Hc _]. now apply H.
    + apply filter_In in Hc. destruct Hc as [Hc _]. now apply H.
    + apply filter_In in Hc. destruct Hc as [Hc Hne].
      destruct (H c Hc) as (col & Hcol & Hid). exists col. split; [| exact Hid].
      apply filter_In. split; [exact Hcol |]. now rewrite Hid.
    + apply filter_In in Hc. destruct Hc as [Hc Hne].
      destruct (H c Hc) as (col & Hcol & Hid). exists col. split; [| exact Hid].
      apply filter_In. split; [exact Hcol |]. now rewrite Hid.
Qed.

Lemma deletes_keep_invariants_witness :
  let s := store_of [card_at "A" "todo" 0 []; card_at "B" "done" 0 []] in
  let s' := final_store (perform s (OpDeleteColumn "todo"))
                        (world s (remote_of (cards s)) []) in
  (positions_unique s -> positions_unique s')
  /\ (tags_unique s -> tags_unique s')
  /\ (cards_have_columns s -> cards_have_columns s').
Proof.
  intros s.
  exact (@deletes_keep_invariants s (remote_of (cards s)) [] (OpDeleteColumn "todo")
           eq_refl).
Defined.

(** ** Where a new entity goes *)

(** X6. A create goes by the answer to its insert (the first call of
    [createBoard], the second of [createColumn] and [createCard]).  Answered,
    the create returns the row the gateway answered with (for a card, with
    an empty tag list added) and puts it in front of the boards, after the
    columns, or after the cards, leaving the entities that were there as they
    were.  Refused, it returns [null] and leaves the state as it was. *)
Theorem create_places_new_entity
    (s : Store) (db : Remote) (refuse : list bool) (title parent : string) :
  (if hd false refuse
   then exists w', created (createBoard title) (world s db refuse) = (None, w')
                   /\ store w' = s
   else exists w',
       created (createBoard title) (world s db refuse)
       = (Some (fst (serve (InsertBoard title) db)), w')
       /\ store w' = set_boards s (fst (serve (InsertBoard title) db) :: boards s))
  /\ (if nth 1 refuse false
      then exists w', created (createColumn title parent) (world s db refuse)
                      = (None, w')
                      /\ store w' = s
      else exists w' pos,
          created (createColumn title parent) (world s db refuse)
          = (Some (fst (serve (InsertColumn title parent pos) db)), w')
          /\ store w' = set_columns s
                          (columns s ++ [fst (serve (InsertColumn title parent pos) db)]))
  /\ (if nth 1 refuse false
      then exists w', created (createCard title parent) (world s db refuse)
                      = (None, w')
                      /\ store w' = s
      else exists w' pos,
          created (createCard title parent) (world s db refuse)
          = (Some (with_tags (fst (serve (InsertCard title parent pos) db)) (Some [])),
             w')
          /\ store w'
             = set_cards s
                 (cards s
                  ++ [with_tags (fst (serve (InsertCard title parent pos) db))
                                (Some [])])).
Proof.
  unfold created.
  split; [| split]; split_refusals refuse; cbn;
    repeat eexists; try now destruct s.
Qed.

(** ** Tags of a card, continued *)

Lemma without_tag_defined (tagId : string) (l : list (option Tag)) :
  all_defined l -> without_tag tagId l = Some (filter (other_tag tagId) l).
Proof.
  unfold all_defined. induction l as [| [t |] l IH]; cbn; intros H.
  - reflexivity.
  - rewrite IH by tauto. now destruct (tag_id t === tagId).
  - exfalso. apply H. now left.
Qed.

Lemma without_tag_undefined (tagId : string) (l : list (option Tag)) :
  In None l -> without_tag tagId l = None.
Proof.
  induction l as [| [t |] l IH]; cbn; intros H.
  - destruct H.
  - destruct H as [H | H]; [discriminate |]. now rewrite IH.
  - reflexivity.
Qed.

Lemma map_cards_total (f : Card -> option Card) (g : Card -> Card) (l : list Card) :
  (forall c, In c l -> f c = Some (g c)) -> map_cards f l = Some (map g l).
Proof.
  induction l as [| a l IH]; cbn; intros H; [reflexivity |].
  rewrite (H a (or_introl eq_refl)), IH; [reflexivity |].
  intros c Hc. apply H. now right.
Qed.

Lemma map_cards_fails (f : Card -> option Card) (l : list Card) (c : Card) :
  In c l -> f c = None -> map_cards f l = None.
Proof.
  induction l as [| a l IH]; cbn; intros Hin Hf; [destruct Hin |].
  destruct Hin as [<- | Hin].
  - now rewrite Hf.
  - destruct (f a); [| reflexivity]. now rewrite IH.
Qed.

Lemma removeTag_updater_defined (cardId tagId : string) (l : list Card) :
  (forall c, In c l -> card_id c = cardId -> all_defined (tags_or_empty c)) ->
  map_cards (fun card =>
               if card_id card === cardId
               then match without_tag tagId (tags_or_empty card) with
                    | Some l => Some (with_tags card (Some l))
                    | None => None
                    end
               else Some card) l
  = Some (untagged cardId tagId l).
Proof.
  intros H. unfold untagged. apply map_cards_total. intros c Hc.
  destruct (card_id c === cardId) eqn:E; [| reflexivity].
  apply String.eqb_eq in E. now rewrite (without_tag_defined tagId (H c Hc E)).
Qed.

(** X7. [removeTagFromCard], answered, on cards whose tag lists hold no
    [undefined]: every card with the id loses every entry with the tag id and
    keeps the others in order, so none with that tag id is left; the other
    cards are as they were; and removing the same tag once more changes
    nothing. *)
Theorem removeTag_removes_every_entry
    (s : Store) (db : Remote) (refuse : list bool) (cardId tagId : string) :
  answers refuse ->
  (forall c, In c (cards s) -> card_id c = cardId -> all_defined (tags_or_empty c)) ->
  let s' := final_store (removeTagFromCard cardId tagId) (world s db refuse) in
  cards s' = untagged cardId tagId (cards s)
  /\ (forall c, In c (cards s') -> card_id c = cardId ->
                ~ In (Some tagId) (card_tag_ids c))
  /\ untagged cardId tagId (cards s') = cards s'.
Proof.
  intros Hok Hdef s'.
  assert (E : cards s' = untagged cardId tagId (cards s)).
  { subst s'. unfold final_store, answers in *.
    destruct refuse as [| [|] later]; try discriminate; cbn;
      rewrite (removeTag_updater_defined tagId _ Hdef); reflexivity. }
  assert (Hgone : forall c, In c (cards s') -> card_id c = cardId ->
                            ~ In (Some tagId) (card_tag_ids c)).
  { intros c Hc Hid Hin. rewrite E in Hc. unfold untagged in Hc.
    apply in_map_iff in Hc. destruct Hc as (c0 & Hc0 & _).
    destruct (card_id c0 === cardId) eqn:Eid.
    - subst c. unfold card_tag_ids, tags_or_empty in Hin. cbn in Hin.
      apply in_map_iff in Hin. destruct Hin as ([t |] & Ht & Hin); [| discriminate].
      apply filter_In in Hin. destruct Hin as [_ Hin]. cbn in Hin, Ht.
      injection Ht as Ht. rewrite Ht, String.eqb_refl in Hin. discriminate.
    - subst c. apply String.eqb_neq in Eid. contradiction. }
  split; [exact E | split; [exact Hgone |]].
  rewrite E. unfold untagged. rewrite map_map. apply map_ext. intros c.
  destruct (card_id c === cardId) eqn:Eid; cbn; rewrite Eid; [| reflexivity].
  unfold with_tags, tags_or_empty. cbn. f_equal. f_equal.
  induction (or_else (tags c) []) as [| e l IH]; cbn; [reflexivity |].
  destruct (other_tag tagId e) eqn:Eo; cbn; rewrite ?Eo, IH; reflexivity.
Qed.

Lemma removeTag_removes_every_entry_witness :
  let s := store_of [card_at "A" "todo" 0 [Some urgent]] in
  let s' := final_store (removeTagFromCard "A" "t1") (world s (remote_of (cards s)) []) in
  cards s' = untagged "A" "t1" (cards s)
  /\ (forall c, In c (cards s') -> card_id c = "A" -> ~ In (Some "t1") (card_tag_ids c))
  /\ untagged "A" "t1" (cards s') = cards s'.
Proof.
  intros s.
  apply (@removeTag_removes_every_entry s (remote_of (cards s)) [] "A" "t1").
  - reflexivity.
  - intros c [<- | []] _ [H | []]. discriminate H.
Defined.

Lemma addTagToCard_run (s0 : Store) (cardId tagId : string) (w : World) :
  answers (refusals w) ->
  exists w',
    run (addTagToCard s0 cardId tagId) w = (Some tt, w')
    /\ store w' = set_cards (store w)
                    (tagged cardId (find (fun t => tag_id t === tagId) (all_tags s0))
                            (cards (store w)))
    /\ refusals w' = tl (refusals w).
Proof.
  unfold answers. destruct w as [s db [| [|] later] j]; cbn; intros H;
    try discriminate; eexists; repeat split; reflexivity.
Qed.

Lemma removeTagFromCard_run (cardId tagId : string) (w : World) :
  answers (refusals w) ->
  (forall c, In c (cards (store w)) -> card_id c = cardId ->
             all_defined (tags_or_empty c)) ->
  exists w',
    run (removeTagFromCard cardId tagId) w = (Some tt, w')
    /\ store w' = set_cards (store w) (untagged cardId tagId (cards (store w))).
Proof.
  unfold answers. destruct w as [s db [| [|] later] j]; cbn; intros H Hdef;
    try discriminate;
    rewrite (removeTag_updater_defined tagId _ Hdef); cbn;
    eexists; split; reflexivity.
Qed.

Lemma removeTagFromCard_throws (cardId tagId : string) (w : World) (c : Card) :
  answers (refusals w) ->
  In c (cards (store w)) -> card_id c = cardId -> In None (tags_or_empty c) ->
  exists w',
    run (removeTagFromCard cardId tagId) w = (Some tt, w')
    /\ store w' = store w
    /\ journal w' = journal w ++ [Issued (DeleteCardTag cardId tagId) true (store w);
                                  Thrown "TypeError"; Toasted true "Tag removed"].
Proof.
  unfold answers. intros H Hin Hid Hnone.
  assert (E : map_cards (fun card =>
                if card_id card === cardId
                then match without_tag tagId (tags_or_empty card) with
                     | Some l => Some (with_tags card (Some l))
                     | None => None
                     end
                else Some card) (cards (store w)) = None).
  { apply (map_cards_fails _ _ c Hin).
    apply String.eqb_eq in Hid. rewrite Hid.
    now rewrite (without_tag_undefined tagId _ Hnone). }
  destruct w as [s db [| [|] later] j]; cbn in *; try discriminate;
    rewrite E; cbn; eexists; repeat split; cbn; rewrite <- ?app_assoc; reflexivity.
Qed.

Lemma filter_other_tag_fresh (tagId : string) (t : Tag) (l : list (option Tag)) :
  tag_id t = tagId -> all_defined l ->
  ~ In (Some tagId) (map (option_map tag_id) l) ->
  filter (other_tag tagId) (l ++ [Some t]) = l.
Proof.
  intros Ht Hdef Hfresh. rewrite filter_app. cbn.
  rewrite Ht, String.eqb_refl. cbn. rewrite app_nil_r.
  unfold all_defined in Hdef.
  induction l as [| [u |] l IH]; cbn in *; [reflexivity | |].
  - destruct (tag_id u === tagId) eqn:E.
    + apply String.eqb_eq in E. exfalso. apply Hfresh. left. now rewrite E.
    + cbn. rewrite IH; tauto.
  - exfalso. apply Hdef. now left.
Qed.

(** X8. Adding a tag and removing it again, both calls answered: when
    [tagId] is a tag of the global collection and the cards with id [cardId]
    hold no [undefined] entry and do not carry [tagId], every card has the
    tag entries it had before (a card without a [tags] field has the empty
    list), and nothing else of the cards has changed. *)
Theorem add_then_remove_tag_restores
    (s : Store) (db : Remote) (refuse : list bool) (cardId tagId : string) (t : Tag) :
  answers refuse -> answers (tl refuse) ->
  find (fun u => tag_id u === tagId) (all_tags s) = Some t ->
  (forall c, In c (cards s) -> card_id c = cardId ->
             all_defined (tags_or_empty c)
             /\ ~ In (Some tagId) (card_tag_ids c)) ->
  let s' := final_store (addTagToCard s cardId tagId;; removeTagFromCard cardId tagId)
                        (world s db refuse) in
  cards s' = with_explicit_tags cardId (cards s)
  /\ map card_tag_ids (cards s') = map card_tag_ids (cards s).
Proof.
  intros H1 H2 Hfind Hcards s'.
  destruct (find_some _ _ Hfind) as [_ Ht]. apply String.eqb_eq in Ht.
  assert (E : cards s' = with_explicit_tags cardId (cards s)).
  { subst s'. unfold final_store. rewrite run_bind.
    destruct (addTagToCard_run s cardId tagId (world s db refuse) H1)
      as (w1 & Hrun1 & Hst1 & Href1).
    rewrite Hrun1, Hfind in *. cbn [store world cards refusals] in *.
    destruct (@removeTagFromCard_run cardId tagId w1) as (w2 & Hrun2 & Hst2).
    - now rewrite Href1.
    - rewrite Hst1. cbn. intros c Hc Hid. unfold tagged in Hc.
      apply in_map_iff in Hc. destruct Hc as (c0 & Hc0 & Hin0).
      destruct (card_id c0 === cardId) eqn:Eid.
      + apply String.eqb_eq in Eid. destruct (Hcards c0 Hin0 Eid) as [Hdef _].
        subst c. unfold tags_or_empty, all_defined in *. cbn.
        intros Hin. apply in_app_or in Hin. destruct Hin as [Hin | [Hin | []]];
          [now apply Hdef | discriminate].
      + subst c. apply String.eqb_neq in Eid. contradiction.
    - rewrite Hrun2. cbn [snd]. rewrite Hst2, Hst1. cbn.
      unfold untagged, tagged, with_explicit_tags. rewrite map_map.
      apply map_ext_in. intros c Hc.
      destruct (card_id c === cardId) eqn:Eid; cbn; rewrite Eid; [| reflexivity].
      apply String.eqb_eq in Eid. destruct (Hcards c Hc Eid) as [Hdef Hfresh].
      unfold with_tags, tags_or_empty in *. cbn. f_equal. f_equal.
      now apply filter_other_tag_fresh. }
  split; [exact E |].
  rewrite E. unfold with_explicit_tags. rewrite map_map. apply map_ext. intros c.
  now destruct (card_id c === cardId).
Qed.

Lemma add_then_remove_tag_restores_witness :
  let s := store_of [card_at "A" "todo" 0 []; card_at "B" "todo" 1 [Some urgent]] in
  let s' := final_store (addTagToCard s "A" "t1";; removeTagFromCard "A" "t1")
                        (world s (remote_of (cards s)) []) in
  cards s' = with_explicit_tags "A" (cards s)
  /\ map card_tag_ids (cards s') = map card_tag_ids (cards s).
Proof.
  intros s.
  apply (@add_then_remove_tag_restores s (remote_of (cards s)) [] "A" "t1" urgent).
  - reflexivity.
  - reflexivity.
  - reflexivity.
  - intros c [<- | [<- | []]] Hid; [| discriminate Hid].
    split; intros [].
Defined.

Lemma some_tag_has_id_undefined (tagId : string) (l : list (option Tag)) :
  In None l -> ~ In (Some tagId) (map (option_map tag_id) l) ->
  some_tag_has_id tagId l = None.
Proof.
  induction l as [| [u |] l IH]; cbn; intros Hin Hfresh.
  - destruct Hin.
  - destruct (tag_id u === tagId) eqn:E.
    + apply String.eqb_eq in E. exfalso. apply Hfresh. left. now rewrite E.
    + apply IH; [| tauto]. destruct Hin as [Hin | Hin]; [discriminate | exact Hin].
  - reflexivity.
Qed.

(** X9. A card whose tag list holds an [undefined] entry (what
    [addTagToCard] leaves after an unknown tag id) is stuck: a click on a tag
    the card does not carry throws in [handleTagClick] before any gateway
    call; and [removeTagFromCard] on it, for any tag, has the row deleted
    remotely and shows "Tag removed", while its updater throws when it is
    run and the cards are given no new value. *)
Theorem undefined_tag_entry_blocks_the_card
    (s : Store) (db : Remote) (refuse : list bool) (card : Card) (tagId : string) :
  In None (tags_or_empty card) ->
  (~ In (Some tagId) (card_tag_ids card) ->
   run (handleTagClick s card tagId) (world s db refuse)
   = (None, mkWorld s db refuse [Thrown "TypeError"]))
  /\ (In card (cards s) -> answers refuse ->
      let j := final_journal (removeTagFromCard (card_id card) tagId)
                             (world s db refuse) in
      fst (run (removeTagFromCard (card_id card) tagId) (world s db refuse)) = Some tt
      /\ final_store (removeTagFromCard (card_id card) tagId) (world s db refuse) = s
      /\ calls j = [DeleteCardTag (card_id card) tagId]
      /\ thrown j = ["TypeError"]
      /\ toasts j = [(true, "Tag removed")]).
Proof.
  intros Hnone. split.
  - intros Hfresh. unfold handleTagClick, card_tag_ids, tags_or_empty in *.
    destruct (tags card) as [l |]; [| destruct Hnone]. cbn in *.
    now rewrite (some_tag_has_id_undefined tagId l Hnone Hfresh).
  - intros Hin Hok. unfold final_store, final_journal.
    destruct (@removeTagFromCard_throws (card_id card) tagId (world s db refuse) card
                Hok Hin eq_refl Hnone) as (w' & Hrun & Hst & Hj).
    rewrite Hrun. cbn [fst snd]. rewrite Hst, Hj. repeat split.
Qed.

Lemma undefined_tag_entry_blocks_the_card_witness :
  let card := card_at "A" "todo" 0 [None] in
  let s := store_of [card] in
  let w := world s (remote_of [card]) [] in
  run (handleTagClick s card "t1") w
  = (None, mkWorld s (remote_of [card]) [] [Thrown "TypeError"])
  /\ fst (run (removeTagFromCard "A" "t1") w) = Some tt
  /\ final_store (removeTagFromCard "A" "t1") w = s
  /\ toasts (final_journal (removeTagFromCard "A" "t1") w) = [(true, "Tag removed")].
Proof.
  intros card s w.
  destruct (@undefined_tag_entry_blocks_the_card s (remote_of [card]) [] card "t1"
              (or_introl eq_refl)) as [Hclick Hremove].
  split.
  - apply Hclick. intros [H | []]. discriminate H.
  - destruct (Hremove (or_introl eq_refl) eq_refl) as (H1 & H2 & _ & _ & H5).
    split; [exact H1 | split; [exact H2 | exact H5]].
Defined.

(** ** Deleting a board that is not the selected one *)

(** X10. [deleteBoard], answered, for a board other than the selected one:
    the boards lose the boards with that id and nothing else changes;
    [currentBoard], the columns and the cards stay.  When no board has the id
    either, the local state is left exactly as it was. *)
Theorem deleteBoard_of_other_board
    (s : Store) (db : Remote) (refuse : list bool) (boardId : string) :
  answers refuse ->
  is_current s boardId = false ->
  let s' := final_store (deleteBoard s boardId) (world s db refuse) in
  s' = set_boards s (filter (fun board => negb (b_id board === boardId)) (boards s))
  /\ ((forall b, In b (boards s) -> b_id b <> boardId) -> s' = s).
Proof.
  unfold answers, final_store. intros Hok Hcur.
  assert (E : store (snd (run (deleteBoard s boardId) (world s db refuse)))
              = set_boards s
                  (filter (fun board => negb (b_id board === boardId)) (boards s))).
  { destruct refuse as [| [|] later]; try discriminate; cbn; rewrite Hcur;
      reflexivity. }
  cbv zeta. split; [exact E |].
  intros Hnone. rewrite E.
  rewrite (filter_unmatched (fun board => b_id board === boardId)).
  - now destruct s.
  - intros b Hb. apply String.eqb_neq. now apply Hnone.
Qed.

Lemma deleteBoard_of_other_board_witness :
  let s := store_of [card_at "A" "todo" 0 []] in
  let s' := final_store (deleteBoard s "b2") (world s (remote_of (cards s)) []) in
  s' = set_boards s (filter (fun board => negb (b_id board === "b2")) (boards s))
  /\ ((forall b, In b (boards s) -> b_id b <> "b2") -> s' = s).
Proof.
  intros s.
  apply (@deleteBoard_of_other_board s (remote_of (cards s)) [] "b2"); reflexivity.
Defined.

(** * Further properties of the drag resolver *)

(** X11. A drag that ends over nothing, a drag of a card that is not in the
    state, and a drop on an id that is neither a column nor a card are
    cancelled: no gateway call, no write of the state; only the active card
    id is cleared. *)
Theorem drag_without_target_is_cancelled
    (s : Store) (db : Remote) (refuse : list bool) (active : string)
    (over : option string) :
  over = None
  \/ find (fun card => card_id card === active) (cards s) = None
  \/ (exists overId, over = Some overId /\ destination s overId = None) ->
  run (handleDragEnd s active over) (world s db refuse)
  = (Some tt, mkWorld s db refuse [WroteLocal (ActiveCardId None)]).
Proof.
  intros [-> | [Hact | (overId & -> & Hdest)]].
  - reflexivity.
  - unfold handleDragEnd. destruct over as [overId |]; [| reflexivity].
    now rewrite Hact.
  - unfold handleDragEnd, destination in *.
    destruct (find (fun card => card_id card === active) (cards s)); [| reflexivity].
    destruct (find (fun column => col_id column === overId) (columns s));
      [discriminate |].
    destruct (find (fun card => card_id card === overId) (cards s));
      [discriminate | reflexivity].
Qed.

Lemma drag_without_target_is_cancelled_witness :
  let s := store_of [card_at "A" "todo" 0 []] in
  run (handleDragEnd s "A" (Some "elsewhere")) (world s (remote_of (cards s)) [])
  = (Some tt, mkWorld s (remote_of (cards s)) [] [WroteLocal (ActiveCardId None)]).
Proof.
  intros s. apply drag_without_target_is_cancelled.
  right. right. exists "elsewhere". split; reflexivity.
Defined.

Lemma updateCardPosition_outcome (s : Store) (db : Remote) (refuse : list bool)
    (a d : string) (p : Z) (c : LocalCell) :
  let w' := snd (run (updateCardPosition a d p;; trigger (SetLocal c))
                     (world s db refuse)) in
  (store w' = s \/ store w' = set_cards s (placed a d p (cards s)))
  /\ calls (journal w') = [UpdateCardRow a (position_patch d p)].
Proof.
  destruct refuse as [| [|] later]; cbn; auto.
Qed.

(** What a drag ends in: nothing written and at most one call, or one update
    of the dragged card to the designated column, written to the cards. *)
Lemma drag_outcome
    (s : Store) (db : Remote) (refuse : list bool) (active : string)
    (over : option string) :
  let w' := snd (run (handleDragEnd s active over) (world s db refuse)) in
  (store w' = s /\ (length (calls (journal w')) <= 1)%nat)
  \/ (exists overId dest pos,
         over = Some overId /\ destination s overId = Some dest
         /\ store w' = set_cards s (placed active dest pos (cards s))
         /\ calls (journal w') = [UpdateCardRow active (position_patch dest pos)]).
Proof.
  cbv zeta. unfold handleDragEnd.
  destruct over as [overId |]; [| left; cbn; auto].
  destruct (find (fun card => card_id card === active) (cards s)) as [activeCard |];
    [| left; cbn; auto].
  destruct (find (fun column => col_id column === overId) (columns s))
    as [col |] eqn:Hcol.
  - assert (Hd : destination s overId = Some (col_id col)).
    { unfold destination. now rewrite Hcol. }
    match goal with
    | |- context [updateCardPosition active ?d ?p] =>
        destruct (updateCardPosition_outcome s db refuse active d p
                    (ActiveCardId None)) as [[E | E] Hc];
          [left; rewrite E, Hc; cbn; auto
          | right; exists overId, d, p; repeat (split; [assumption || reflexivity |]);
            assumption]
    end.
  - destruct (find (fun card => card_id card === overId) (cards s))
      as [overCard |] eqn:Hover; [| left; cbn; auto].
    assert (Hd : destination s overId = Some (column_id overCard)).
    { unfold destination. now rewrite Hcol, Hover. }
    destruct (column_id activeCard === column_id overCard) eqn:Esame.
    + apply String.eqb_eq in Esame.
      match goal with
      | |- context [if ?b then _ else Ret tt] => destruct b
      end; left; cbn; auto.
    + destruct (updateCardPosition_outcome s db refuse active
                  (column_id overCard) (position overCard) (ActiveCardId None))
        as [[E | E] Hc].
      * left. rewrite E, Hc. cbn. auto.
      * right. exists overId, (column_id overCard), (position overCard).
        repeat (split; [assumption || reflexivity |]); assumption.
Qed.

Lemma placed_frame (a d : string) (p : Z) (l : list Card) :
  map card_id (placed a d p l) = map card_id l
  /\ (forall c, In c (placed a d p l) -> card_id c <> a -> In c l).
Proof.
  unfold placed. split.
  - rewrite map_map. apply map_ext. intros c. now destruct (card_id c === a).
  - intros c Hc Hne. apply in_map_iff in Hc. destruct Hc as (c0 & Hc0 & Hin).
    destruct (card_id c0 === a) eqn:E; subst c; [| exact Hin].
    apply String.eqb_eq in E. cbn in Hne. contradiction.
Qed.

(** X12. Whatever is dragged and wherever it is dropped, [handleDragEnd]
    issues at most one gateway call, an update of the dragged card, and
    writes nothing but the cards with the dragged id: boards, columns, tags
    and every other card stay as they were, and the cards keep their number,
    their order and their ids. *)
Theorem drag_touches_only_the_dragged_card
    (s : Store) (db : Remote) (refuse : list bool) (active : string)
    (over : option string) :
  let w' := snd (run (handleDragEnd s active over) (world s db refuse)) in
  let s' := store w' in
  boards s' = boards s /\ currentBoard s' = currentBoard s
  /\ columns s' = columns s /\ all_tags s' = all_tags s
  /\ isLoading s' = isLoading s
  /\ map card_id (cards s') = map card_id (cards s)
  /\ (forall c, In c (cards s') -> card_id c <> active -> In c (cards s))
  /\ (length (calls (journal w')) <= 1)%nat
  /\ (forall r, In r (calls (journal w')) ->
                exists dest pos, r = UpdateCardRow active (position_patch dest pos)).
Proof.
  cbv zeta.
  destruct (drag_outcome s db refuse active over)
    as [[E Hlen] | (overId & d & p & _ & _ & E & Hc)].
  - rewrite E. repeat split; auto.
    intros r Hr. unfold handleDragEnd in Hr.
    destruct over as [overId |]; [| destruct Hr].
    destruct (find (fun card => card_id card === active) (cards s)); [| destruct Hr].
    destruct (find (fun column => col_id column === overId) (columns s)).
    + match type of Hr with
      | context [updateCardPosition active ?d ?p] =>
          rewrite (proj2 (updateCardPosition_outcome s db refuse active d p
                            (ActiveCardId None))) in Hr;
            destruct Hr as [<- | []]; now exists d, p
      end.
    + destruct (find (fun card => card_id card === overId) (cards s));
        [| destruct Hr].
      destruct (column_id c === column_id c0).
      * match type of Hr with
        | context [if ?b then _ else Ret tt] => destruct b
        end; destruct Hr.
      * match type of Hr with
        | context [updateCardPosition active ?d ?p] =>
            rewrite (proj2 (updateCardPosition_outcome s db refuse active d p
                              (ActiveCardId None))) in Hr;
              destruct Hr as [<- | []]; now exists d, p
        end.
  - rewrite E, Hc. cbn.
    destruct (placed_frame active d p (cards s)) as [Hids Hothers].
    repeat split; auto.
    intros r [<- | []]. now exists d, p.
Qed.






(** ** The order a column shows *)

Lemma insert_by_position_perm (x : Card) (l : list Card) :
  Permutation (insert_by_position x l) (x :: l).
Proof.
  induction l as [| y l IH]; cbn; [reflexivity |].
  destruct (position x <=? position y); [reflexivity |].
  rewrite IH. apply perm_swap.
Qed.

Lemma sort_by_position_perm (l : list Card) : Permutation (sort_by_position l) l.
Proof.
  induction l as [| x l IH]; cbn; [reflexivity |].
  rewrite insert_by_position_perm. now constructor.
Qed.

Lemma insert_by_position_sorted (x : Card) (l : list Card) :
  StronglySorted (fun a b => position a <= position b) l ->
  StronglySorted (fun a b => position a <= position b) (insert_by_position x l).
Proof.
  induction l as [| y l IH]; cbn; intros H.
  - repeat constructor.
  - inversion H as [| y' l' Hl Hy]; subst.
    destruct (position x <=? position y) eqn:E.
    + apply Z.leb_le in E. constructor; [exact H |].
      constructor; [exact E |].
      eapply Forall_impl; [| exact Hy]. cbn. intros z Hz. lia.
    + apply Z.leb_gt in E. constructor; [now apply IH |].
      apply Forall_forall. intros z Hz. apply insert_by_position_In in Hz.
      destruct Hz as [-> | Hz]; [lia |].
      now apply (proj1 (Forall_forall _ _) Hy).
Qed.

Lemma insert_by_position_stable (p : Z) (x : Card) (l : list Card) :
  filter (fun c => position c =? p) (insert_by_position x l)
  = filter (fun c => position c =? p) (x :: l).
Proof.
  induction l as [| y l IH]; cbn; [reflexivity |].
  destruct (position x <=? position y) eqn:E; [reflexivity |].
  apply Z.leb_gt in E. cbn in *. rewrite IH.
  destruct (position x =? p) eqn:Ex, (position y =? p) eqn:Ey; try reflexivity.
  apply Z.eqb_eq in Ex, Ey. lia.
Qed.

(** X14. A column shows exactly its cards, each once, in ascending position;
    cards with the same position are shown in the order of the cards array
    (the sort is stable). *)
Theorem column_shows_cards_by_position (s : Store) (columnId : string) :
  Permutation (displayed s columnId)
              (filter (fun card => column_id card === columnId) (cards s))
  /\ StronglySorted (fun a b => position a <= position b) (displayed s columnId)
  /\ forall p,
       filter (fun c => position c =? p) (displayed s columnId)
       = filter (fun c => position c =? p)
                (filter (fun card => column_id card === columnId) (cards s)).
Proof.
  unfold displayed.
  induction (filter (fun card => column_id card === columnId) (cards s))
    as [| x l (IH1 & IH2 & IH3)].
  - repeat split; constructor.
  - split; [apply sort_by_position_perm | split].
    + cbn. now apply insert_by_position_sorted.
    + intros p. cbn [sort_by_position]. rewrite insert_by_position_stable.
      cbn. now rewrite IH3.
Qed.

(** ** A drop on a card of the same column *)

(** X15. [handleDragEnd] given, as [over.id], a card of the column the
    dragged card is in (the dragged card itself included): both cards are
    found in the column, and the handler throws a TypeError at the call of
    [arrayMove], which the import leaves [undefined].  No gateway call is
    issued, the state is not written, and the active card id is not
    cleared. *)
Theorem same_column_drop_throws
    (s : Store) (db : Remote) (refuse : list bool)
    (active overId : string) (activeCard overCard : Card) :
  find (fun card => card_id card === active) (cards s) = Some activeCard ->
  find (fun column => col_id column === overId) (columns s) = None ->
  find (fun card => card_id card === overId) (cards s) = Some overCard ->
  column_id activeCard = column_id overCard ->
  run (handleDragEnd s active (Some overId)) (world s db refuse)
  = (None, mkWorld s db refuse [Thrown "TypeError"]).
Proof.
  intros Hact Hcol Hover Hsame.
  destruct (find_card_found _ _ Hact) as [Hain Haid].
  destruct (find_card_found _ _ Hover) as [Hoin Hoid].
  set (L := displayed s (column_id activeCard)).
  assert (Hin_col : forall c, In c (cards s) -> column_id c = column_id activeCard ->
                              In c L).
  { intros c Hc Hcc. apply sort_by_position_In, filter_In.
    split; [assumption | now apply String.eqb_eq]. }
  destruct (@findIndex_found _ (fun card => card_id card === active) L _
              (Hin_col _ Hain eq_refl) (proj2 (String.eqb_eq _ _) Haid))
    as (na & ca & Hai & _ & _).
  destruct (@findIndex_found _ (fun card => card_id card === overId) L _
              (Hin_col _ Hoin (eq_sym Hsame)) (proj2 (String.eqb_eq _ _) Hoid))
    as (no & co & Hoi & _ & _).
  unfold handleDragEnd. rewrite Hact, Hcol, Hover.
  replace (column_id activeCard === column_id overCard) with true
    by (symmetry; now apply String.eqb_eq).
  fold (displayed s (column_id activeCard)). fold L.
  rewrite Hai, Hoi.
  replace (negb (Z.of_nat na =? -1) && negb (Z.of_nat no =? -1)) with true.
  2:{ symmetry. apply andb_true_iff.
      split; apply negb_true_iff, Z.eqb_neq; lia. }
  reflexivity.
Qed.

Lemma same_column_drop_throws_witness :
  let s := store_of [card_at "A" "todo" 0 []; card_at "B" "todo" 1 [];
                     card_at "C" "todo" 2 []] in
  run (handleDragEnd s "A" (Some "C")) (world s (remote_of (cards s)) [])
  = (None, mkWorld s (remote_of (cards s)) [] [Thrown "TypeError"]).
Proof.
  intros s.
  apply (@same_column_drop_throws s (remote_of (cards s)) [] "A" "C"
           (card_at "A" "todo" 0 []) (card_at "C" "todo" 2 []));
    reflexivity.
Defined.

(** ** Cards stay in columns of the state *)




(** ** Titles sent by the create handlers *)

Lemma leading_space_shorter (s rest : string) :
  leading_space s = Some rest -> (String.length rest < String.length s)%nat.
Proof.
  destruct s as [| c1 [| c2 [| c3 r]]]; cbn; try discriminate;
    destruct (is_space c1); try discriminate;
    try (intros H; injection H as <-; cbn; lia);
    destruct (is_space2 c1 c2); try discriminate;
    try (intros H; injection H as <-; cbn; lia);
    destruct (is_space3 c1 c2 c3); try discriminate;
    intros H; injection H as <-; cbn; lia.
Qed.

Lemma strip_leading_done (fuel : nat) :
  forall s, (String.length s <= fuel)%nat -> leading_space (strip_leading fuel s) = None.
Proof.
  induction fuel as [| fuel IH]; intros s Hlen; cbn.
  - destruct s; [reflexivity | cbn in Hlen; lia].
  - destruct (leading_space s) as [rest |] eqn:E; [| exact E].
    apply IH. apply leading_space_shorter in E. lia.
Qed.

Lemma trimStart_no_leading (s : string) : leading_space (trimStart s) = None.
Proof. unfold trimStart. now apply strip_leading_done. Qed.

Lemma trimEnd_prefix (s : string) : exists rest, s = (trimEnd s ++ rest)%string.
Proof.
  induction s as [| a s (rest & IH)]; cbn; [now exists EmptyString |].
  destruct (white_space (String a (trimEnd s))).
  - now exists (String a s).
  - exists rest. cbn. now rewrite <- IH.
Qed.

Lemma leading_space_app (p rest x : string) :
  leading_space p = Some x -> leading_space (p ++ rest) = Some (x ++ rest)%string.
Proof.
  destruct p as [| c1 [| c2 [| c3 r]]]; cbn; try discriminate;
    destruct (is_space c1); try discriminate;
    try (intros H; injection H as <-; reflexivity);
    destruct (is_space2 c1 c2); try discriminate;
    try (intros H; injection H as <-; reflexivity);
    destruct (is_space3 c1 c2 c3); try discriminate;
    intros H; injection H as <-; reflexivity.
Qed.

Lemma trimEnd_no_leading (s : string) :
  leading_space s = None -> leading_space (trimEnd s) = None.
Proof.
  intros H. destruct (trimEnd_prefix s) as (rest & Hs).
  destruct (leading_space (trimEnd s)) as [x |] eqn:E; [| reflexivity].
  apply (leading_space_app (trimEnd s) rest) in E.
  rewrite <- Hs in E. congruence.
Qed.

Lemma trimEnd_no_trailing (s : string) : ~ ends_with_space (trimEnd s).
Proof.
  unfold ends_with_space.
  induction s as [| a s IH]; cbn; intros (before & last & H & Hw).
  - destruct before; [| discriminate]. cbn in H. subst last. discriminate.
  - destruct (white_space (String a (trimEnd s))) eqn:E.
    + destruct before; [| discriminate]. cbn in H. subst last. discriminate.
    + destruct before as [| b before]; cbn in H.
      * subst last. congruence.
      * injection H as _ H. apply IH. now exists before, last.
Qed.

Lemma trim_is_trimmed (s : string) : truthy (trim s) = true -> is_trimmed_title (trim s).
Proof.
  unfold trim. intros H. split; [| split].
  - intros E. rewrite E in H. discriminate.
  - apply trimEnd_no_leading, trimStart_no_leading.
  - apply trimEnd_no_trailing.
Qed.

(** X17. The create handlers send the title trimmed: when the title does not
    trim to the empty string, [handleCreateBoard], [handleCreateCard] and,
    with a board selected, [handleCreateColumn] issue their insert with the
    trimmed title, which is not empty and has no white space at either
    end. *)
Theorem create_handlers_send_trimmed_title
    (s : Store) (db : Remote) (refuse : list bool) (title : string) :
  truthy (trim title) = true ->
  is_trimmed_title (trim title)
  /\ (exists a, In (Issued (InsertBoard (trim title)) a s)
                   (final_journal (handleCreateBoard title) (world s db refuse)))
  /\ (forall columnId, exists a pos,
        In (Issued (InsertCard (trim title) columnId pos) a s)
           (final_journal (handleCreateCard columnId title) (world s db refuse)))
  /\ (forall b, currentBoard s = Some b -> exists a pos,
        In (Issued (InsertColumn (trim title) (b_id b) pos) a s)
           (final_journal (handleCreateColumn s title) (world s db refuse))).
Proof.
  intros H. split; [now apply trim_is_trimmed |].
  unfold final_journal, handleCreateBoard, handleCreateCard, handleCreateColumn.
  rewrite H. split; [| split].
  - split_refusals refuse; cbn; eexists; auto.
  - intros columnId. split_refusals refuse; cbn; do 2 eexists; auto.
  - intros b ->. split_refusals refuse; cbn; do 2 eexists; auto.
Qed.

Lemma create_handlers_send_trimmed_title_witness :
  is_trimmed_title "Write tests"
  /\ (exists a, In (Issued (InsertBoard "Write tests") a empty_store)
                   (final_journal (handleCreateBoard padded_title)
                                  (world empty_store empty_remote []))).
Proof.
  destruct (@create_handlers_send_trimmed_title empty_store empty_remote []
              padded_title eq_refl) as (H1 & H2 & _).
  split; [exact H1 | exact H2].
Defined.

(** * Properties of the loaders *)

Lemma load_andThen {A B} (oracle : Loading.Oracle) (p : Loading.Load A)
    (f : A -> Loading.Load B) (g : Loading.Progress) :
  Loading.load oracle (Loading.andThen p f) g
  = let (a, g') := Loading.load oracle p g in Loading.load oracle (f a) g'.
Proof.
  revert g. induction p as [a | X e k IH]; intros g; cbn; [reflexivity |].
  destruct (Loading.react oracle e g) as [x g']. apply IH.
Qed.

(** The cards built from the rows: the state is not written, only tag
    queries are asked, one for each row with tag ids, and every card gets a
    tag list without [undefined]. *)
Lemma process_cards_load (oracle : Loading.Oracle) (rows : list Loading.CardRow) :
  forall (s : Store) (n : nat) (notes : list Loading.Note),
  exists cs n' asked,
    Loading.load oracle (Loading.process_cards rows) (s, n, notes)
    = (cs, (s, n', notes ++ asked))
    /\ Loading.queries asked = flat_map Loading.tag_query rows
    /\ Loading.loading_flags asked = []
    /\ Loading.error_toasts asked = []
    /\ map card_id cs = map (fun row => card_id (Loading.row_card row)) rows
    /\ map column_id cs = map (fun row => column_id (Loading.row_card row)) rows
    /\ map position cs = map (fun row => position (Loading.row_card row)) rows
    /\ (forall c, In c cs -> exists l, tags c = Some l /\ all_defined l).
Proof.
  induction rows as [| row rows IH]; intros s n notes.
  - exists [], n, []. cbn. rewrite app_nil_r. repeat split; try reflexivity.
    intros c [].
  - cbn [Loading.process_cards]. rewrite load_andThen.
    assert (Hone : exists c n1 asked1,
               Loading.load oracle (Loading.process_card row) (s, n, notes)
               = (c, (s, n1, notes ++ asked1))
               /\ Loading.queries asked1 = Loading.tag_query row
               /\ Loading.loading_flags asked1 = []
               /\ Loading.error_toasts asked1 = []
               /\ card_id c = card_id (Loading.row_card row)
               /\ column_id c = column_id (Loading.row_card row)
               /\ position c = position (Loading.row_card row)
               /\ exists l, tags c = Some l /\ all_defined l).
    { unfold Loading.process_card, Loading.tag_query.
      destruct (or_else (Loading.row_tags row) []) as [| i ids] eqn:Eids.
      - cbn. do 2 eexists. exists []. rewrite app_nil_r.
        repeat split; try reflexivity. exists []. split; [reflexivity | intros []].
      - cbn [length Z.of_nat]. cbn.
        destruct (oracle n (Loading.SelectTagsIn (i :: ids))) as [tagData | e]; cbn;
          do 3 eexists; (split; [reflexivity |]); cbn;
          repeat split; try reflexivity; eexists; (split; [reflexivity |]).
        + unfold all_defined. intros Hin. apply in_map_iff in Hin.
          destruct Hin as (t & Ht & _). discriminate.
        + intros []. }
    destruct Hone as (c & n1 & asked1 & -> & Hq1 & Hl1 & Ht1 & Hi1 & Hc1 & Hp1 & Hd1).
    rewrite load_andThen.
    destruct (IH s n1 (notes ++ asked1))
      as (cs & n' & asked & -> & Hq & Hl & Ht & Hi & Hc & Hp & Hd).
    cbn. exists (c :: cs), n', (asked1 ++ asked).
    unfold Loading.queries, Loading.loading_flags, Loading.error_toasts in *.
    rewrite !flat_map_app, app_assoc. cbn.
    rewrite Hq1, Hq, Hl1, Hl, Ht1, Ht, Hi1, Hi, Hc1, Hc, Hp1, Hp.
    repeat split; try reflexivity.
    intros c' [<- | Hc']; [exact Hd1 | now apply Hd].
Qed.

(** What [fetchBoardData] does, by the answers to its three queries. *)
Lemma fetchBoardData_load (oracle : Loading.Oracle) (s : Store) (boardId : string) :
  let s' := Loading.loaded oracle (Loading.fetchBoardData boardId) s in
  let notes := Loading.notes_of oracle (Loading.fetchBoardData boardId) s in
  Loading.loading_flags notes = [true; false]
  /\ match oracle 0%nat (Loading.SelectBoard boardId) with
     | Refused _ =>
         s' = Loading.set_isLoading s false
         /\ Loading.queries notes = [Loading.SelectBoard boardId]
         /\ Loading.error_toasts notes = ["Failed to load board data"]
     | Answered b =>
         match oracle 1%nat (Loading.SelectColumns boardId) with
         | Refused _ =>
             s' = Loading.set_isLoading (set_currentBoard s (Some b)) false
             /\ Loading.queries notes
                = [Loading.SelectBoard boardId; Loading.SelectColumns boardId]
             /\ Loading.error_toasts notes = ["Failed to load board data"]
         | Answered cols =>
             match oracle 2%nat (Loading.SelectCards (map col_id cols)) with
             | Refused _ =>
                 s' = Loading.set_isLoading
                        (set_columns (set_currentBoard s (Some b)) cols) false
                 /\ Loading.queries notes
                    = [Loading.SelectBoard boardId; Loading.SelectColumns boardId;
                       Loading.SelectCards (map col_id cols)]
                 /\ Loading.error_toasts notes = ["Failed to load board data"]
             | Answered rows =>
                 exists cs,
                   s' = mkStore (boards s) (Some b) cols cs (all_tags s) false
                   /\ Loading.queries notes
                      = [Loading.SelectBoard boardId; Loading.SelectColumns boardId;
                         Loading.SelectCards (map col_id cols)]
                        ++ flat_map Loading.tag_query rows
                   /\ Loading.error_toasts notes = []
                   /\ map card_id cs
                      = map (fun row => card_id (Loading.row_card row)) rows
                   /\ map column_id cs
                      = map (fun row => column_id (Loading.row_card row)) rows
                   /\ map position cs
                      = map (fun row => position (Loading.row_card row)) rows
                   /\ (forall c, In c cs -> exists l, tags c = Some l /\ all_defined l)
             end
         end
     end.
Proof.
  unfold Loading.loaded, Loading.notes_of, Loading.fetchBoardData.
  cbn.
  destruct (oracle 0%nat (Loading.SelectBoard boardId)) as [b | e0]; cbn;
    [| repeat split; reflexivity].
  destruct (oracle 1%nat (Loading.SelectColumns boardId)) as [cols | e1]; cbn;
    [| repeat split; reflexivity].
  destruct (oracle 2%nat (Loading.SelectCards (map col_id cols))) as [rows | e2]; cbn;
    [| repeat split; reflexivity].
  rewrite !load_andThen.
  match goal with
  | |- context [Loading.load oracle (Loading.process_cards rows) (?s0, ?n0, ?notes0)] =>
      destruct (process_cards_load oracle rows s0 n0 notes0)
        as (cs & n' & asked & -> & Hq & Hl & Ht & Hi & Hc & Hp & Hd)
  end.
  cbn.
  unfold Loading.queries, Loading.loading_flags, Loading.error_toasts in *.
  rewrite !flat_map_app. cbn. rewrite Hq, Hl, Ht. cbn. rewrite ?app_nil_r.
  split; [reflexivity |]. exists cs. repeat split; assumption || reflexivity.
Qed.


(** X19. [fetchBoardData] is not all or nothing.  It stops at the first
    refused query with one error toast: a refused board query changes
    nothing; a refused columns query leaves the new [currentBoard] with the
    columns and cards that were there; a refused cards query leaves the new
    [currentBoard] and columns with the cards that were there.  It never
    writes the boards or the global tags. *)
Theorem fetchBoardData_stops_at_first_refusal
    (oracle : Loading.Oracle) (s : Store) (boardId : string) :
  let s' := Loading.loaded oracle (Loading.fetchBoardData boardId) s in
  let notes := Loading.notes_of oracle (Loading.fetchBoardData boardId) s in
  boards s' = boards s /\ all_tags s' = all_tags s
  /\ match oracle 0%nat (Loading.SelectBoard boardId) with
     | Refused _ =>
         currentBoard s' = currentBoard s /\ columns s' = columns s
         /\ cards s' = cards s
         /\ Loading.error_toasts notes = ["Failed to load board data"]
     | Answered b =>
         currentBoard s' = Some b
         /\ match oracle 1%nat (Loading.SelectColumns boardId) with
            | Refused _ =>
                columns s' = columns s /\ cards s' = cards s
                /\ Loading.error_toasts notes = ["Failed to load board data"]
            | Answered cols =>
                columns s' = cols
                /\ match oracle 2%nat (Loading.SelectCards (map col_id cols)) with
                   | Refused _ =>
                       cards s' = cards s
                       /\ Loading.error_toasts notes = ["Failed to load board data"]
                   | Answered _ => Loading.error_toasts notes = []
                   end
            end
     end.
Proof.
  pose proof (fetchBoardData_load oracle s boardId) as [_ Hcases].
  cbv zeta in *.
  destruct (oracle 0%nat (Loading.SelectBoard boardId)) as [b |];
    [| destruct Hcases as (-> & _ & ->); repeat split; reflexivity].
  destruct (oracle 1%nat (Loading.SelectColumns boardId)) as [cols |];
    [| destruct Hcases as (-> & _ & ->); repeat split; reflexivity].
  destruct (oracle 2%nat (Loading.SelectCards (map col_id cols))) as [rows |];
    [| destruct Hcases as (-> & _ & ->); repeat split; reflexivity].
  destruct Hcases as (cs & -> & _ & -> & _). repeat split; reflexivity.
Qed.

(** X20. When the three queries of [fetchBoardData] are answered, the state
    holds the board as [currentBoard], the columns as answered, and one card
    for each row in the order of the rows, at the row's column and position;
    the cards were asked for exactly the ids of the answered columns, and one
    tag query was issued for each row that has tag ids.  Every loaded card
    has a tag list without [undefined], also when a tag query is refused (the
    card then has no tags, and no toast is shown). *)
Theorem fetchBoardData_loads_the_board
    (oracle : Loading.Oracle) (s : Store) (boardId : string)
    (b : Board) (cols : list Column) (rows : list Loading.CardRow) :
  oracle 0%nat (Loading.SelectBoard boardId) = Answered b ->
  oracle 1%nat (Loading.SelectColumns boardId) = Answered cols ->
  oracle 2%nat (Loading.SelectCards (map col_id cols)) = Answered rows ->
  let s' := Loading.loaded oracle (Loading.fetchBoardData boardId) s in
  let notes := Loading.notes_of oracle (Loading.fetchBoardData boardId) s in
  currentBoard s' = Some b /\ columns s' = cols /\ isLoading s' = false
  /\ map card_id (cards s') = map (fun row => card_id (Loading.row_card row)) rows
  /\ map column_id (cards s') = map (fun row => column_id (Loading.row_card row)) rows
  /\ map position (cards s') = map (fun row => position (Loading.row_card row)) rows
  /\ (forall c, In c (cards s') -> exists l, tags c = Some l /\ all_defined l)
  /\ Loading.queries notes
     = [Loading.SelectBoard boardId; Loading.SelectColumns boardId;
        Loading.SelectCards (map col_id cols)] ++ flat_map Loading.tag_query rows
  /\ Loading.error_toasts notes = [].
Proof.
  intros H0 H1 H2.
  pose proof (fetchBoardData_load oracle s boardId) as [_ Hcases].
  cbv zeta in *. rewrite H0, H1, H2 in Hcases.
  destruct Hcases as (cs & -> & Hq & Ht & Hi & Hc & Hp & Hd).
  cbn. repeat split; assumption.
Qed.

Lemma fetchBoardData_loads_the_board_witness :
  let s' := Loading.loaded Loading.sample_oracle (Loading.fetchBoardData "b1")
                           empty_store in
  currentBoard s' = Some sprint1 /\ columns s' = [todo; done]
  /\ cards s' = [card_at "A" "todo" 0 [Some urgent]].
Proof.
  destruct (@fetchBoardData_loads_the_board Loading.sample_oracle empty_store "b1"
              sprint1 [todo; done]
              [Loading.mkRow (card_at "A" "todo" 0 []) (Some ["t1"])]
              eq_refl eq_refl eq_refl) as (H1 & H2 & _).
  cbv zeta. split; [exact H1 | split; [exact H2 | reflexivity]].
Defined.

Lemma some_tag_has_id_defined (tagId : string) (l : list (option Tag)) :
  all_defined l ->
  some_tag_has_id tagId l
  = Some (existsb (fun e => match e with
                            | Some t => tag_id t === tagId
                            | None => false
                            end) l).
Proof.
  unfold all_defined. induction l as [| [t |] l IH]; cbn; intros H.
  - reflexivity.
  - destruct (tag_id t === tagId); [reflexivity | apply IH; tauto].
  - exfalso. apply H. now left.
Qed.

(** X21. A click on a tag toggles it: on a card whose tag list holds no
    [undefined], [handleTagClick] issues exactly one gateway call, the delete
    of the card-tag row when the card carries the tag and the insert when it
    does not, and throws nothing. *)
Theorem tag_click_toggles
    (s : Store) (db : Remote) (refuse : list bool) (card : Card) (tagId : string) :
  all_defined (tags_or_empty card) ->
  In card (cards s) ->
  (forall c, In c (cards s) -> card_id c = card_id card -> all_defined (tags_or_empty c)) ->
  let j := final_journal (handleTagClick s card tagId) (world s db refuse) in
  calls j = [if carries card tagId
             then DeleteCardTag (card_id card) tagId
             else InsertCardTag (card_id card) tagId]
  /\ thrown j = [].
Proof.
  intros Hdef Hin Hall.
  assert (Hhas : match tags card with
                 | Some l => some_tag_has_id tagId l
                 | None => Some false
                 end = Some (carries card tagId)).
  { unfold carries, tags_or_empty in *. destruct (tags card) as [l |]; cbn.
    - now apply some_tag_has_id_defined.
    - reflexivity. }
  unfold final_journal, handleTagClick. rewrite Hhas.
  destruct (carries card tagId).
  - destruct refuse as [| [|] later]; cbn;
      rewrite ?(removeTag_updater_defined tagId _ Hall); cbn; split; reflexivity.
  - destruct refuse as [| [|] later]; cbn; split; reflexivity.
Qed.

Lemma tag_click_toggles_witness :
  let card := card_at "A" "todo" 0 [Some urgent] in
  let s := store_of [card] in
  let j := final_journal (handleTagClick s card "t1") (world s (remote_of [card]) []) in
  calls j = [DeleteCardTag "A" "t1"] /\ thrown j = [].
Proof.
  intros card s.
  apply (@tag_click_toggles s (remote_of [card]) [] card "t1").
  - intros [H | []]. discriminate H.
  - now left.
  - intros c [<- | []] _ [H | []]. discriminate H.
Defined.

(** The columns query refused on the way to another board: the new board is
    selected over the columns and the cards of the board shown before. *)
Example columns_refused_keeps_old_columns :
  let s := store_of [card_at "A" "todo" 0 []] in
  let s' := Loading.loaded Loading.columns_refused (Loading.fetchBoardData "b2") s in
  currentBoard s' = Some sprint1 /\ columns s' = columns s /\ cards s' = cards s
  /\ isLoading s' = false.
Proof. repeat split. Qed.

(** ** A create whose position query is refused *)

(** X22. [createCard] and [createColumn] do not read the error of their
    position query: when that query is refused and the insert is answered,
    the entity is still created and added to the state, at position 0,
    whatever positions its siblings hold. *)
Theorem refused_position_query_gives_zero
    (w : World) (title parent : string) (later : list bool) :
  refusals w = true :: false :: later ->
  (exists card w',
      created (createCard title parent) w = (Some card, w')
      /\ position card = 0 /\ column_id card = parent
      /\ cards (store w') = cards (store w) ++ [card])
  /\ (exists column w',
      created (createColumn title parent) w = (Some column, w')
      /\ col_position column = 0 /\ board_id column = parent
      /\ columns (store w') = columns (store w) ++ [column]).
Proof.
  intros H. destruct w as [s db refuse j]. cbn in H. subst refuse.
  unfold created. split; cbn; do 2 eexists; repeat split.
Qed.

Lemma refused_position_query_gives_zero_witness :
  let cs := [card_at "A" "todo" 0 []; card_at "B" "todo" 1 []] in
  exists card w',
    created (createCard "C" "todo") (world (store_of cs) (remote_of cs) [true; false])
    = (Some card, w')
    /\ position card = 0 /\ column_id card = "todo"
    /\ cards (store w') = cs ++ [card].
Proof.
  intros cs.
  exact (proj1 (@refused_position_query_gives_zero
                  (world (store_of cs) (remote_of cs) [true; false])
                  "C" "todo" [] eq_refl)).
Defined.

(** * Tag ids after every operation *)






(** A patch of [updateCard] that brings a tag list with a repeated id puts
    it on the card as it is. *)
Example updateCard_with_repeated_tags :
  let s := store_of [card_at "A" "todo" 0 []] in
  let patch := mkPatch None None None None None None
                       (Some (Some [Some urgent; Some urgent])) in
  cards (final_store (updateCard "A" patch) (world s (remote_of (cards s)) []))
  = [card_at "A" "todo" 0 [Some urgent; Some urgent]].
Proof. reflexivity. Qed.
